(** * Pretraining on unlabeled data (chapter 5): data split, text/token
      adapters and loss

    A shallow embedding of the code cells of
    [chapter_05_pretraining_on_unlabeled_data.ipynb]:

    - the train/validation split
      [split_idx = int(train_ratio * len(text_data))],
      [text_data[:split_idx]], [text_data[split_idx:]];
    - [text_to_token_ids] and [token_ids_to_text];
    - the step-by-step loss ([softmax], the gather of the target
      probabilities, [log], [mean], negate) and
      [torch.nn.functional.cross_entropy] on the flattened tensors;
    - the windowed data loader [create_dataloader_v1], whose definition is in
      the chapter 2 notebook.

    Python floats are IEEE 754 binary64 values ([spec_float] with
    [prec = 53], [emax = 1024]); Python integers are [Z]; strings are lists of
    characters.  The loss cells are written over an arithmetic, the numeric
    functions of the library on the entries of a tensor; exact real
    arithmetic is one. *)

From Stdlib Require Import ZArith List Bool Lia Ascii String QArith Qround Qpower.
From Stdlib Require Import Floats.SpecFloat.
From Stdlib Require Import Reals Lra Permutation.
From Equations Require Import Equations.
Import ListNotations.

Set Warnings "-register-all".
Local Open Scope Z_scope.

(** ** The Python runtime the cells rely on *)

Module Py.

(** The exceptions the cells can raise. *)
Inductive exn : Type :=
| ValueError
| OverflowError
| AttributeError
| TypeError
| IndexError.

(** A computation either returns or raises. *)
Inductive result (A : Type) : Type :=
| Ok (a : A)
| Raise (e : exn).
Arguments Ok {A} a.
Arguments Raise {A} e.

Definition bind {A B : Type} (c : result A) (k : A -> result B) : result B :=
  match c with
  | Ok a => k a
  | Raise e => Raise e
  end.

Declare Scope py_scope.
Delimit Scope py_scope with py.
Notation "x <- c ;; k" := (bind c (fun x => k))
  (at level 61, c at next level, right associativity) : py_scope.

Definition returns {A : Type} (c : result A) : Prop :=
  exists a, c = Ok a.

(** [str]: an immutable sequence of characters. *)
Definition str : Type := list ascii.

Definition len {A : Type} (s : list A) : Z := Z.of_nat (List.length s).

(** [len] is a [Py_ssize_t]. *)
Definition PY_SSIZE_T_MAX : Z := 2 ^ 63 - 1.

(** Slice bounds, as [PySlice_AdjustIndices] computes them for step 1: a
    negative bound counts from the end, and every bound is clamped to
    [0 .. len]. *)
Definition adjust_index (k n : Z) : Z :=
  if k <? 0 then Z.max (k + n) 0 else Z.min k n.

(** [s[:k]] *)
Definition slice_to {A : Type} (s : list A) (k : Z) : list A :=
  firstn (Z.to_nat (adjust_index k (len s))) s.

(** [s[k:]] *)
Definition slice_from {A : Type} (s : list A) (k : Z) : list A :=
  skipn (Z.to_nat (adjust_index k (len s))) s.

(** [s[i:j]] *)
Definition slice {A : Type} (s : list A) (i j : Z) : list A :=
  let lo := adjust_index i (len s) in
  let hi := adjust_index j (len s) in
  firstn (Z.to_nat (hi - lo)) (skipn (Z.to_nat lo) s).

(** *** Floats *)

Definition prec : Z := 53.
Definition emax : Z := 1024.

(** A Python [float] is a binary64 value. *)
Definition float : Type := spec_float.

Definition is_float (x : float) : bool := valid_binary prec emax x.

Definition fmul (x y : float) : float := SFmul prec emax x y.

(** [float(n)] for an [int]: correctly rounded, [OverflowError] when [n] is
    too large for a double. *)
Definition float_of_int (n : Z) : result float :=
  match binary_normalize prec emax n 0 false with
  | S754_infinity _ => Raise OverflowError
  | f => Ok f
  end.

(** [int(x)] for a [float]: truncation towards zero; infinities and NaN are
    refused. *)
Definition int_of_float (x : float) : result Z :=
  match x with
  | S754_zero _ => Ok 0
  | S754_finite s m e => Ok (cond_Zopp s (Z.shiftl (Zpos m) e))
  | S754_infinity _ => Raise OverflowError
  | S754_nan => Raise ValueError
  end.

(** [x * n] with [x] a [float] and [n] an [int]. *)
Definition fmul_int (x : float) (n : Z) : result float :=
  (y <- float_of_int n ;; Ok (fmul x y))%py.

(** The rational number a float stands for (0 for infinities and NaN, which
    stand for no number). *)
Definition Q_of_float (x : float) : Q :=
  match x with
  | S754_finite s m e =>
      inject_Z (cond_Zopp s (Zpos m)) * (2 # 1) ^ e
  | _ => 0%Q
  end.

Definition one : float := S754_finite false 4503599627370496 (-52).
Definition zero : float := S754_zero false.

Definition flt (x y : float) : bool := SFltb x y.

(** The last step of rounding: a mantissa and an exponent, as a float. *)
Definition float_of_mantissa (s : bool) (m e : Z) : float :=
  match m with
  | Z0 => S754_zero s
  | Zpos q => if e <=? emax - prec then S754_finite s q e else S754_infinity s
  | Zneg _ => S754_nan
  end.

(** A ratio strictly between 0 and 1. *)
Definition unit_ratio (r : float) : bool :=
  is_float r && flt zero r && flt r one.

(** Zero, or a finite float with a mantissa below [2^53] and an exponent of
    at most [b]. *)
Definition small_float (b : Z) (f : float) : Prop :=
  match f with
  | S754_zero _ => True
  | S754_finite _ m e => Zpos m < 2 ^ 53 /\ e <= b
  | _ => False
  end.

(** [2^900] *)
Definition huge : float := S754_finite false 4503599627370496 848.

(** A finite ratio of magnitude below [2^900]: any sign, zero included. *)
Definition moderate (r : float) : bool :=
  is_float r && flt (SFabs r) huge.

(** Zero or a positive finite float. *)
Definition is_nonneg (x : float) : bool :=
  match x with
  | S754_zero _ => true
  | S754_finite s _ _ => negb s
  | _ => false
  end.

(** Neither an infinity nor NaN. *)
Definition is_finite (x : float) : bool :=
  match x with
  | S754_zero _ | S754_finite _ _ _ => true
  | _ => false
  end.

(** [1.5] and [0.5] *)
Definition three_halves : float := S754_finite false 6755399441055744 (-52).
Definition half : float := S754_finite false 4503599627370496 (-53).

(** [0.7]: the double nearest to 7/10. *)
Definition seven_tenths : float := S754_finite false 6305039478318694 (-53).

End Py.

Import Py.
Local Open Scope py_scope.

(** ** The train/validation split *)

(** [split_idx = int(train_ratio * len(text_data))] *)
Definition split_idx (train_ratio : float) (text_data : str) : result Z :=
  product <- fmul_int train_ratio (len text_data) ;;
  int_of_float product.

(** The split of the data-loading cell: the pair [(train_data, val_data)]. *)
Definition split_data (train_ratio : float) (text_data : str)
  : result (str * str) :=
  idx <- split_idx train_ratio text_data ;;
  let train_data := slice_to text_data idx in
  let val_data := slice_from text_data idx in
  Ok (train_data, val_data).

(** [train_ratio = 0.90]: the double nearest to 9/10. *)
Definition train_ratio : float := S754_finite false 8106479329266893 (-53).

(** ** Text encoder and decoder utilities *)

(** A [torch.Tensor] of integers: a scalar (dimension 0) or a stack of
    tensors of one dimension less.  The entries are token ranks of the
    vocabulary, far inside the [int64] range of [torch.tensor]. *)
Inductive tensor : Type :=
| Scalar (v : Z)
| Stack (rows : list tensor).

(** [torch.tensor(ids)] for a list of ints. *)
Definition tensor_of_list (ids : list Z) : tensor := Stack (map Scalar ids).

(** [t.unsqueeze(0)]: a new leading dimension of size 1. *)
Definition unsqueeze0 (t : tensor) : tensor := Stack [t].

(** [t.squeeze(0)]: the leading dimension is removed when its size is 1, and
    the tensor is returned as it is otherwise. *)
Definition squeeze0 (t : tensor) : tensor :=
  match t with
  | Stack [row] => row
  | _ => t
  end.

(** [t.tolist()] as the argument of [decode], which iterates over a flat
    list of ints: a scalar (not iterable) or a nested list is a type error. *)
Fixpoint scalars (rows : list tensor) : result (list Z) :=
  match rows with
  | [] => Ok []
  | Scalar v :: rest => vs <- scalars rest ;; Ok (v :: vs)
  | Stack _ :: _ => Raise TypeError
  end.

Definition tolist_flat (t : tensor) : result (list Z) :=
  match t with
  | Scalar _ => Raise TypeError
  | Stack rows => scalars rows
  end.

(** The tokenizer is a collaborator ([tiktoken.Encoding]): what it raises is
    passed on unchanged. *)
Record Encoding : Type := {
  encode : list str -> str -> result (list Z);
  decode : list Z -> result str
}.

Definition endoftext : str := list_ascii_of_string "<|endoftext|>".

Definition text_to_token_ids (text : str) (tokenizer : option Encoding)
  : result tensor :=
  match tokenizer with
  | None => Raise AttributeError
  | Some tok =>
      encoded <- encode tok [endoftext] text ;;
      let encoded_tensor := unsqueeze0 (tensor_of_list encoded) in
      Ok encoded_tensor
  end.

Definition token_ids_to_text (token_ids : tensor) (tokenizer : option Encoding)
  : result str :=
  let flat := squeeze0 token_ids in
  match tokenizer with
  | None => Raise AttributeError
  | Some tok => ids <- tolist_flat flat ;; decode tok ids
  end.

(** ** The loss *)

Module Loss.

(** *** Indexing a tensor *)

(** [row[i]] with an integer index of a tensor: negative indices count from
    the end, anything else out of range is an [IndexError]. *)
Definition index {A : Type} (row : list A) (i : Z) : result A :=
  let j := if (i <? 0)%Z then (i + len row)%Z else i in
  if (j <? 0)%Z then Raise IndexError
  else match nth_error row (Z.to_nat j) with
       | Some a => Ok a
       | None => Raise IndexError
       end.

Fixpoint traverse {A B : Type} (f : A -> result B) (l : list A)
  : result (list B) :=
  match l with
  | [] => Ok []
  | a :: l' => b <- f a ;; bs <- traverse f l' ;; Ok (b :: bs)
  end.

(** Broadcasting a one-dimensional index tensor against an index list of
    [n] entries: its length is [n], or it is 1 and the single index is
    repeated; other lengths do not broadcast, an [IndexError]. *)
Definition broadcast_to (n : nat) (ids : list Z) : result (list Z) :=
  if (List.length ids =? n)%nat then Ok ids
  else match ids with
       | [i] => Ok (repeat i n)
       | _ => Raise IndexError
       end.

(** [rows[[0, 1, 2], ids]]: entry [ids[k]] of row [k], for the three
    positions [k = 0, 1, 2] that the cell writes out. *)
Definition gather {A : Type} (rows : list (list A)) (ids : list Z)
  : result (list A) :=
  ids3 <- broadcast_to 3 ids ;;
  traverse (fun ki => row <- index rows (fst ki) ;; index row (snd ki))
    (combine [0; 1; 2]%Z ids3).

(** [probas[batch_idx, [0, 1, 2], targets[batch_idx]]] *)
Definition target_probas {A : Type} (probas : list (list (list A)))
    (targets : list (list Z)) (batch_idx : Z) : result (list A) :=
  ids <- index targets batch_idx ;;
  rows <- index probas batch_idx ;;
  gather rows ids.

(** [logits.flatten(0, 1)] and [targets.flatten()] *)
Definition flatten {A : Type} (t : list (list A)) : list A := List.concat t.

Definition ignore_index : Z := (-100)%Z.

(** *** The numeric functions of the library *)

(** What the cells call on the entries of a float tensor.  The cells fix
    which entries are read and how the calls compose; the entries and the
    rounding of each call belong to the arithmetic. *)
Record arithmetic : Type := {
  num : Type;
  (** [torch.softmax(row, dim=-1)] on one row of the vocabulary axis *)
  softmax : list num -> list num;
  (** [torch.log] on one entry *)
  log : num -> num;
  (** [torch.mean] of a one-dimensional tensor *)
  mean : list num -> num;
  (** [x * k] for a Python int [k] *)
  scale : num -> Z -> num;
  (** [log_softmax] on one row, and the negation of one entry, inside
      [cross_entropy] *)
  log_softmax : list num -> list num;
  opp : num -> num
}.

Section Cells.

Variable a : arithmetic.

(** The loss, step by step: [probas], [target_probas_1] and
    [target_probas_2] for the batch indices 0 and 1, [log_probas],
    [avg_log_probas], [neg_avg_log_probas]. *)
Definition neg_avg_log_probas (logits : list (list (list (num a))))
    (targets : list (list Z)) : result (num a) :=
  let probas := map (map (softmax a)) logits in
  target_probas_1 <- target_probas probas targets 0 ;;
  target_probas_2 <- target_probas probas targets 1 ;;
  let log_probas := map (log a) (target_probas_1 ++ target_probas_2) in
  let avg_log_probas := mean a log_probas in
  Ok (scale a avg_log_probas (-1)).

(** The loss of every sample that is not ignored; a target outside
    [0 .. C-1] is an [IndexError]. *)
Fixpoint nll_terms (input : list (list (num a))) (target : list Z)
  : result (list (num a)) :=
  match input, target with
  | row :: input', y :: target' =>
      if (y =? ignore_index)%Z then nll_terms input' target'
      else if ((0 <=? y) && (y <? len row))%Z then
        (lp <- index (log_softmax a row) y ;;
         rest <- nll_terms input' target' ;;
         Ok (opp a lp :: rest))
      else Raise IndexError
  | _, _ => Ok []
  end.

(** [torch.nn.functional.cross_entropy], a function of the library, with its
    defaults: [reduction='mean'], [ignore_index=-100], no weights.  The
    batch sizes of input and target are compared first, a [ValueError]. *)
Definition cross_entropy (input : list (list (num a))) (target : list Z)
  : result (num a) :=
  if (len input =? len target)%Z then
    (terms <- nll_terms input target ;; Ok (mean a terms))
  else Raise ValueError.

(** The loss cell: [cross_entropy(logits_flat, targets_flat)]. *)
Definition loss (logits : list (list (list (num a))))
    (targets : list (list Z)) : result (num a) :=
  let logits_flat := flatten logits in
  let targets_flat := flatten targets in
  cross_entropy logits_flat targets_flat.

End Cells.

(** Tensors are rectangular. *)
Definition shape2 {A : Type} (t : list (list A)) (n m : nat) : Prop :=
  List.length t = n /\ Forall (fun row => List.length row = m) t.

Definition shape3 {A : Type} (t : list (list (list A))) (b n m : nat) : Prop :=
  List.length t = b /\ Forall (fun x => shape2 x n m) t.

(** The targets are token ids of a vocabulary of size [V]. *)
Definition in_vocab (V : nat) (targets : list (list Z)) : Prop :=
  Forall (Forall (fun y => (0 <= y < Z.of_nat V)%Z)) targets.

(** *** Exact real arithmetic *)

Local Open Scope R_scope.

(** An entry in exact arithmetic: a real number, or [NaN] for what is no
    real number (the mean of nothing, the logarithm of what is not
    positive). *)
Inductive scalar : Type :=
| Num (x : R)
| NaN.

Definition Rsum (l : list R) : R := fold_right Rplus 0 l.

(** The entries of a row, when all of them are real numbers. *)
Fixpoint reals (row : list scalar) : option (list R) :=
  match row with
  | [] => Some []
  | Num x :: row' =>
      match reals row' with
      | Some r => Some (x :: r)
      | None => None
      end
  | NaN :: _ => None
  end.

(** The largest entry of a row. *)
Definition Rmax_list (row : list R) : R :=
  match row with
  | [] => 0
  | x :: rest => fold_right Rmax x rest
  end.

(** [softmax]: [exp(x_i) / sum_j exp(x_j)]. *)
Definition exact_softmax (row : list scalar) : list scalar :=
  match reals row with
  | Some r => map (fun x => Num (exp x / Rsum (map exp r))) r
  | None => map (fun _ => NaN) row
  end.

Definition exact_log (x : scalar) : scalar :=
  match x with
  | Num p => if Rlt_dec 0 p then Num (ln p) else NaN
  | NaN => NaN
  end.

Definition exact_mean (l : list scalar) : scalar :=
  match reals l with
  | Some (x :: r) => Num (Rsum (x :: r) / INR (List.length (x :: r)))
  | _ => NaN
  end.

Definition exact_scale (x : scalar) (k : Z) : scalar :=
  match x with
  | Num p => Num (p * IZR k)
  | NaN => NaN
  end.

(** [log_softmax], as the library computes it: on the logits shifted by
    their maximum. *)
Definition exact_log_softmax (row : list scalar) : list scalar :=
  match reals row with
  | Some r =>
      let m := Rmax_list r in
      let lse := ln (Rsum (map (fun x => exp (x - m)) r)) in
      map (fun x => Num (x - m - lse)) r
  | None => map (fun _ => NaN) row
  end.

Definition exact_opp (x : scalar) : scalar :=
  match x with
  | Num p => Num (- p)
  | NaN => NaN
  end.

(** The functions of the library in exact real arithmetic, without
    rounding, overflow or underflow. *)
Definition exact : arithmetic := {|
  num := scalar;
  softmax := exact_softmax;
  log := exact_log;
  mean := exact_mean;
  scale := exact_scale;
  log_softmax := exact_log_softmax;
  opp := exact_opp
|}.

(** A tensor of real numbers, as a tensor of exact arithmetic. *)
Definition of_reals (logits : list (list (list R)))
  : list (list (list scalar)) :=
  map (map (map Num)) logits.

(** The probability of token [y] under the logits [row]. *)
Definition proba (row : list R) (y : Z) : R :=
  exp (nth (Z.to_nat y) row 0) / Rsum (map exp row).

(** The mean, over all entries of the batch, of minus the logarithm of the
    probability of the true next token: the categorical cross-entropy. *)
Definition mean_nll (logits : list (list (list R)))
    (targets : list (list Z)) : R :=
  Rsum (map (fun ry => - ln (proba (fst ry) (snd ry)))
          (combine (flatten logits) (flatten targets)))
  / INR (List.length (flatten targets)).

End Loss.

(** ** The windowed batch builder *)

Module Loader.

Definition window : Type := (list Z * list Z)%type.

Section Windows.
Variable tokens : list Z.
Variables max_length stride : Z.
Hypothesis stride_pos : 0 < stride.

(** Modelled from the spec: the window loop of [create_dataloader_v1], whose
    definition (chapter 2 notebook) is not part of the sources.  The
    pairs [(tokens[i : i+L], tokens[i+1 : i+L+1])], for [i] starting at 0
    and advancing by the stride, while [i + L + 1 <= len(tokens)]. *)
Equations? windows_from (i : Z) : list window
  by wf (Z.to_nat (len tokens - max_length - i)) lt :=
  windows_from i with Z_le_dec (i + max_length + 1) (len tokens) => {
    | left _ :=
        (slice tokens i (i + max_length),
         slice tokens (i + 1) (i + max_length + 1))
        :: windows_from (i + stride);
    | right _ := [] }.
Proof. lia. Qed.
End Windows.

(** Modelled from the spec: the sequence of (input, target) pairs of
    [create_dataloader_v1]; a window length or a stride that is not positive
    is an invalid argument. *)
Definition windowed_pairs (tokens : list Z) (max_length stride : Z)
  : result (list window) :=
  if max_length <=? 0 then Raise ValueError
  else match Z_lt_dec 0 stride with
       | left stride_pos =>
           Ok (windows_from tokens max_length stride stride_pos 0)
       | right _ => Raise ValueError
       end.

Section Batches.
Context {A : Type}.
Variable batch_size : positive.
Variable drop_last : bool.

(** Modelled from the spec: consecutive pairs are grouped into batches of
    the batch size; a smaller final batch is dropped under [drop_last] and
    emitted at its reduced size otherwise. *)
Equations? batches (l : list A) : list (list A) by wf (List.length l) lt :=
  batches [] := [];
  batches (x :: l') with
      Nat.ltb (List.length (x :: l')) (Pos.to_nat batch_size) => {
    | true := if drop_last then [] else [x :: l'];
    | false :=
        firstn (Pos.to_nat batch_size) (x :: l')
        :: batches (skipn (Pos.to_nat batch_size) (x :: l')) }.
Proof.
  pose proof (Pos2Nat.is_pos batch_size) as Hpos.
  destruct (Pos.to_nat batch_size) as [|n]; [lia|].
  simpl. pose proof (length_skipn n l'). lia.
Qed.
End Batches.

Section DataLoader.
(** The seeded random order of one pass. *)
Variable shuffle_order : list window -> list window.

(** Modelled from the spec: [create_dataloader_v1] on a token sequence:
    the windows, in a random order when [shuffle] is set, in batches. *)
Definition create_dataloader_v1 (tokens : list Z) (batch_size : positive)
    (max_length stride : Z) (shuffle drop_last : bool)
  : result (list (list window)) :=
  pairs <- windowed_pairs tokens max_length stride ;;
  let ordered := if shuffle then shuffle_order pairs else pairs in
  Ok (batches batch_size drop_last ordered).
End DataLoader.

(** The pair taken at start index [i]. *)
Definition window_at (tokens : list Z) (max_length i : Z) : window :=
  (slice tokens i (i + max_length),
   slice tokens (i + 1) (i + max_length + 1)).

(** The start indices [0, S, 2S, ..]: the first [c] of them. *)
Definition starts (stride : Z) (c : nat) : list Z :=
  map (fun j => Z.of_nat j * stride) (seq 0 c).

(** The target is the input shifted by one token: [target[k] == input[k+1]]
    on the first [L-1] positions, and [target[L-1]] is the token that
    follows the input window in the token sequence. *)
Definition next_token_pair (tokens : list Z) (L : Z) (w : window) : Prop :=
  exists i,
    0 <= i /\ i + L + 1 <= len tokens /\
    fst w = slice tokens i (i + L) /\
    len (fst w) = L /\ len (snd w) = L /\
    (forall k : nat, Z.of_nat k < L - 1 ->
       exists x, nth_error (snd w) k = Some x
                 /\ nth_error (fst w) (S k) = Some x) /\
    (exists y, nth_error (snd w) (Z.to_nat (L - 1)) = Some y
               /\ nth_error tokens (Z.to_nat (i + L)) = Some y).

End Loader.



(** * Facts *)

(** ** Slices *)

Lemma len_nonneg {A : Type} (s : list A) : 0 <= len s.
Proof. unfold len. lia. Qed.

Lemma len_app {A : Type} (s t : list A) : len (s ++ t) = len s + len t.
Proof. unfold len. rewrite length_app. lia. Qed.

Lemma adjust_index_range (k n : Z) : 0 <= n -> 0 <= adjust_index k n <= n.
Proof.
  intros Hn. unfold adjust_index.
  destruct (Z.ltb_spec k 0); lia.
Qed.

Lemma adjust_index_id (k n : Z) : 0 <= k <= n -> adjust_index k n = k.
Proof.
  intros Hk. unfold adjust_index.
  destruct (Z.ltb_spec k 0); lia.
Qed.

(** [s[:k] + s[k:] == s] for every integer [k], negative or beyond the end
    included. *)
Lemma slice_to_from {A : Type} (s : list A) (k : Z) :
  slice_to s k ++ slice_from s k = s.
Proof. unfold slice_to, slice_from. apply firstn_skipn. Qed.

Lemma slice_to_len {A : Type} (s : list A) (k : Z) :
  0 <= k <= len s -> len (slice_to s k) = k.
Proof.
  intros Hk. unfold slice_to. rewrite adjust_index_id by exact Hk.
  unfold len in *. rewrite length_firstn. lia.
Qed.

Lemma slice_from_len {A : Type} (s : list A) (k : Z) :
  0 <= k <= len s -> len (slice_from s k) = len s - k.
Proof.
  intros Hk. unfold slice_from. rewrite adjust_index_id by exact Hk.
  unfold len in *. rewrite length_skipn. lia.
Qed.

Lemma slice_len {A : Type} (s : list A) (i j : Z) :
  0 <= i <= j -> j <= len s -> len (slice s i j) = j - i.
Proof.
  intros Hi Hj. unfold slice.
  rewrite !adjust_index_id by lia.
  unfold len in *. rewrite length_firstn, length_skipn. lia.
Qed.

(** Entry [k] of [s[i:j]] is entry [i + k] of [s]. *)
Lemma slice_nth_error {A : Type} (s : list A) (i j : Z) (k : nat) :
  0 <= i <= j -> j <= len s -> Z.of_nat k < j - i ->
  nth_error (slice s i j) k = nth_error s (Z.to_nat i + k).
Proof.
  intros Hi Hj Hk. unfold slice.
  rewrite !adjust_index_id by lia.
  rewrite nth_error_firstn.
  destruct (Nat.ltb_spec k (Z.to_nat (j - i))) as [_|Hge]; [|lia].
  apply nth_error_skipn.
Qed.

(** ** Text to tokens and back *)

Lemma scalars_of_list (ids : list Z) : scalars (map Scalar ids) = Ok ids.
Proof.
  induction ids as [|v ids IH]; simpl; [reflexivity|].
  rewrite IH. reflexivity.
Qed.

(** The batch dimension added by [unsqueeze(0)] is the one [squeeze(0)]
    removes. *)
Lemma squeeze0_unsqueeze0 (t : tensor) : squeeze0 (unsqueeze0 t) = t.
Proof. reflexivity. Qed.

Lemma tolist_tensor_of_list (ids : list Z) :
  tolist_flat (squeeze0 (unsqueeze0 (tensor_of_list ids))) = Ok ids.
Proof. rewrite squeeze0_unsqueeze0. apply scalars_of_list. Qed.

(** C10.  No default tokenizer is created: without a tokenizer both
    functions raise [AttributeError] ([None] has no [encode] or [decode]),
    whatever the text or the tensor. *)
Theorem no_default_tokenizer (text : str) (token_ids : tensor) :
  text_to_token_ids text None = Raise AttributeError
  /\ token_ids_to_text token_ids None = Raise AttributeError.
Proof. split; reflexivity. Qed.

(** So a call that returns was given a tokenizer. *)
Lemma text_to_token_ids_returns_tokenizer
    (text : str) (tokenizer : option Encoding) :
  returns (text_to_token_ids text tokenizer) -> tokenizer <> None.
Proof. intros [t Ht] ->. discriminate Ht. Qed.

Lemma token_ids_to_text_returns_tokenizer
    (token_ids : tensor) (tokenizer : option Encoding) :
  returns (token_ids_to_text token_ids tokenizer) -> tokenizer <> None.
Proof. intros [t Ht] ->. discriminate Ht. Qed.

(** ** The windowed batch builder *)

Import Loader.

Lemma nth_error_in_range {A : Type} (s : list A) (n : nat) :
  (n < List.length s)%nat -> exists x, nth_error s n = Some x.
Proof.
  intros Hn. destruct (nth_error s n) as [x|] eqn:E; [eauto|].
  apply nth_error_None in E. lia.
Qed.

(** The window loop emits the windows at [i, i + S, i + 2S, ..], as long as
    a window and its following token fit. *)
Lemma windows_from_starts (tokens : list Z) (L S : Z) (HS : 0 < S) (i : Z) :
  exists c : nat,
    windows_from tokens L S HS i
      = map (fun j => window_at tokens L (i + Z.of_nat j * S)) (seq 0 c)
    /\ (forall j : nat, (j < c)%nat -> i + Z.of_nat j * S + L + 1 <= len tokens)
    /\ len tokens < i + Z.of_nat c * S + L + 1.
Proof.
  funelim (windows_from tokens L S HS i).
  - destruct H as (c & Hmap & Hin & Hout).
    exists (Datatypes.S c). split; [|split].
    + cbn [seq map]. rewrite Hmap. unfold window_at at 2.
      replace (i + Z.of_nat 0 * S) with i by lia.
      rewrite <- seq_shift, map_map. apply (f_equal (cons _)).
      apply map_ext. intros j. apply f_equal. lia.
    + intros [|j] Hj; [lia|].
      specialize (Hin j ltac:(lia)). lia.
    + lia.
  - exists 0%nat. split; [reflexivity|]. split; [lia|]. lia.
Qed.

(** A window that fits, with the token after it, is a next-token pair. *)
Lemma window_at_next_token (tokens : list Z) (L i : Z) :
  0 < L -> 0 <= i -> i + L + 1 <= len tokens ->
  next_token_pair tokens L (window_at tokens L i).
Proof.
  intros HL Hi Hfit. exists i. unfold window_at. cbn [fst snd].
  repeat split; try lia.
  - rewrite slice_len; lia.
  - rewrite slice_len; lia.
  - intros k Hk.
    rewrite !slice_nth_error by lia.
    replace (Z.to_nat i + Datatypes.S k)%nat with (Z.to_nat (i + 1) + k)%nat
      by lia.
    destruct (nth_error_in_range tokens (Z.to_nat (i + 1) + k)) as [x Hx].
    { unfold len in Hfit. lia. }
    exists x. split; exact Hx.
  - rewrite slice_nth_error by lia.
    replace (Z.to_nat (i + 1) + Z.to_nat (L - 1))%nat with (Z.to_nat (i + L))
      by lia.
    destruct (nth_error_in_range tokens (Z.to_nat (i + L))) as [y Hy].
    { unfold len in Hfit. lia. }
    exists y. split; exact Hy.
Qed.

Lemma windowed_pairs_returns (tokens : list Z) (L S : Z) :
  0 < L -> 0 < S -> returns (windowed_pairs tokens L S).
Proof.
  intros HL HS. unfold windowed_pairs, returns.
  destruct (Z.leb_spec L 0); [lia|].
  destruct (Z_lt_dec 0 S); [eauto|lia].
Qed.

(** What the pair sequence is, when the builder returns one. *)
Lemma windowed_pairs_starts (tokens : list Z) (L S : Z) (ws : list window) :
  windowed_pairs tokens L S = Ok ws ->
  0 < L /\ 0 < S /\
  exists c : nat,
    ws = map (window_at tokens L) (starts S c)
    /\ Forall (fun i => 0 <= i /\ i + L + 1 <= len tokens) (starts S c)
    /\ len tokens < Z.of_nat c * S + L + 1.
Proof.
  unfold windowed_pairs. intros Hws.
  destruct (Z.leb_spec L 0); [discriminate|].
  destruct (Z_lt_dec 0 S) as [HS|]; [|discriminate].
  injection Hws as <-.
  destruct (windows_from_starts tokens L S HS 0) as (c & Heq & Hin & Hout).
  split; [assumption|]. split; [assumption|].
  exists c. split; [|split].
  - rewrite Heq. unfold starts. rewrite map_map. reflexivity.
  - unfold starts. apply Forall_forall. intros i Hi.
    apply in_map_iff in Hi. destruct Hi as (j & <- & Hj).
    apply in_seq in Hj. specialize (Hin j ltac:(lia)). lia.
  - lia.
Qed.

Lemma windowed_pairs_next_token_pairs
    (tokens : list Z) (L S : Z) (ws : list window) :
  windowed_pairs tokens L S = Ok ws -> Forall (next_token_pair tokens L) ws.
Proof.
  intros Hws.
  destruct (windowed_pairs_starts _ _ _ _ Hws) as (HL & HS & c & -> & Hin & _).
  apply Forall_forall. intros w Hw.
  apply in_map_iff in Hw. destruct Hw as (i & <- & Hi).
  rewrite Forall_forall in Hin. destruct (Hin i Hi).
  apply window_at_next_token; assumption.
Qed.

Lemma Forall_firstn_skipn {A : Type} (P : A -> Prop) (n : nat) (l : list A) :
  Forall P l -> Forall P (firstn n l) /\ Forall P (skipn n l).
Proof.
  intros Hl. rewrite <- (firstn_skipn n l) in Hl.
  apply Forall_app in Hl. exact Hl.
Qed.

(** Batching groups the pairs and may drop the last ones; it makes none. *)
Lemma batches_Forall {A : Type} (P : A -> Prop) (batch_size : positive)
    (drop_last : bool) (l : list A) :
  Forall P l -> Forall (Forall P) (batches batch_size drop_last l).
Proof.
  funelim (batches batch_size drop_last l); intros Hl.
  - constructor.
  - destruct drop_last; [constructor|].
    constructor; [exact Hl|constructor].
  - destruct (Forall_firstn_skipn P (Pos.to_nat batch_size) _ Hl) as [Hf Hs].
    constructor; [exact Hf|]. apply H. exact Hs.
Qed.

Lemma batches_nil {A : Type} (batch_size : positive) (drop_last : bool) :
  batches batch_size drop_last (@nil A) = [].
Proof. simp batches. reflexivity. Qed.

(** C2.  For a window length [L <= len(T) - 1]: with a positive window
    length and stride the builder returns its pairs, and there is at least
    one; the pairs are the windows at the start indices [0, S, 2S, ..] for
    which [i + L + 1 <= len(T)], the next start index no longer fitting; in
    every pair, and in every pair of every batch of the loader,
    [target[k] == input[k+1]] on the first [L-1] positions and
    [target[L-1]] is the token that follows the input window in [T]. *)
Theorem windowed_pairs_shifted_by_one
    (shuffle_order : list window -> list window)
    (tokens : list Z) (L S : Z) :
  (forall l, Permutation l (shuffle_order l)) ->
  L <= len tokens - 1 ->
  (0 < L -> 0 < S -> returns (windowed_pairs tokens L S))
  /\ (forall ws, windowed_pairs tokens L S = Ok ws ->
        ws <> []
        /\ Forall (next_token_pair tokens L) ws
        /\ exists c : nat,
             ws = map (window_at tokens L) (starts S c)
             /\ Forall (fun i => 0 <= i /\ i + L + 1 <= len tokens) (starts S c)
             /\ len tokens < Z.of_nat c * S + L + 1)
  /\ (forall batch_size shuffle drop_last bs,
        create_dataloader_v1 shuffle_order tokens batch_size L S
          shuffle drop_last = Ok bs ->
        Forall (Forall (next_token_pair tokens L)) bs).
Proof.
  intros Hperm HL. split; [|split].
  - apply windowed_pairs_returns.
  - intros ws Hws. split; [|split].
    + destruct (windowed_pairs_starts _ _ _ _ Hws)
        as (_ & _ & [|c] & -> & _ & Hout).
      * simpl in Hout. lia.
      * discriminate.
    + eapply windowed_pairs_next_token_pairs; eassumption.
    + apply (windowed_pairs_starts _ _ _ _ Hws).
  - intros batch_size shuffle drop_last bs Hbs.
    unfold create_dataloader_v1 in Hbs.
    destruct (windowed_pairs tokens L S) as [ws|] eqn:Hws; [|discriminate].
    simpl in Hbs. injection Hbs as <-.
    apply batches_Forall.
    pose proof (windowed_pairs_next_token_pairs _ _ _ _ Hws) as Hall.
    destruct shuffle; [|exact Hall].
    apply Forall_forall. intros w Hw.
    rewrite Forall_forall in Hall. apply Hall.
    eapply Permutation_in; [apply Permutation_sym, Hperm|exact Hw].
Qed.

Lemma windowed_pairs_shifted_by_one_witness :
  (forall l : list window, Permutation l (rev l))
  /\ 2 <= len [1; 2; 3; 4; 5; 6; 7] - 1
  /\ windowed_pairs [1; 2; 3; 4; 5; 6; 7] 2 3
       = Ok [([1; 2], [2; 3]); ([4; 5], [5; 6])]
  /\ Forall (next_token_pair [1; 2; 3; 4; 5; 6; 7] 2)
       [([1; 2], [2; 3]); ([4; 5], [5; 6])].
Proof.
  assert (Hperm : forall l : list window, Permutation l (rev l))
    by (intros l; apply Permutation_rev).
  assert (Hlen : 2 <= len [1; 2; 3; 4; 5; 6; 7] - 1) by (vm_compute; discriminate).
  split; [exact Hperm|]. split; [exact Hlen|].
  assert (Hws : windowed_pairs [1; 2; 3; 4; 5; 6; 7] 2 3
                = Ok [([1; 2], [2; 3]); ([4; 5], [5; 6])]) by reflexivity.
  split; [exact Hws|].
  destruct (windowed_pairs_shifted_by_one (@rev window)
              [1; 2; 3; 4; 5; 6; 7] 2 3 Hperm Hlen) as (_ & Hpairs & _).
  apply (Hpairs _ Hws).
Defined.

(** C7.  A token sequence shorter than one window and its following token
    ([len(tokens) < L + 1]) gives, for a valid window length and stride and
    whatever the batch size and the flags, an empty sequence of batches, and
    no error. *)
Theorem create_dataloader_v1_short
    (shuffle_order : list window -> list window)
    (tokens : list Z) (batch_size : positive) (L S : Z)
    (shuffle drop_last : bool) :
  (forall l, Permutation l (shuffle_order l)) ->
  0 < L -> 0 < S ->
  len tokens < L + 1 ->
  create_dataloader_v1 shuffle_order tokens batch_size L S shuffle drop_last
  = Ok [].
Proof.
  intros Hperm HL HS Hshort.
  unfold create_dataloader_v1.
  destruct (windowed_pairs tokens L S) as [ws|e] eqn:Hws.
  - destruct (windowed_pairs_starts _ _ _ _ Hws)
      as (_ & _ & [|c] & -> & Hin & _).
    + simpl.
      assert (Hnil : shuffle_order [] = [])
        by (apply Permutation_nil, Hperm).
      destruct shuffle; [rewrite Hnil|]; rewrite batches_nil; reflexivity.
    + exfalso. apply Forall_inv in Hin. simpl in Hin. lia.
  - destruct (windowed_pairs_returns tokens L S HL HS) as [ws Hok].
    congruence.
Qed.

Lemma create_dataloader_v1_short_witness :
  create_dataloader_v1 (@rev window) [5; 6; 7] 2 4 4 true false = Ok [].
Proof.
  apply create_dataloader_v1_short.
  - intros l. apply Permutation_rev.
  - lia.
  - lia.
  - vm_compute. reflexivity.
Defined.
(** ** The loss *)

Import Loss.

Section Indexing.

Lemma index_in_range {A : Type} (row : list A) (y : Z) :
  (0 <= y < len row)%Z -> exists a, index row y = Ok a /\ In a row.
Proof.
  intros Hy. unfold index.
  assert (E : (y <? 0)%Z = false) by (apply Z.ltb_ge; lia).
  rewrite !E.
  destruct (nth_error_in_range row (Z.to_nat y)) as [a Ha].
  { unfold len in Hy. lia. }
  exists a. rewrite Ha. split; [reflexivity|].
  eapply nth_error_In; eassumption.
Qed.

Lemma index_nth {A : Type} (row : list A) (y : Z) (d : A) :
  (0 <= y < len row)%Z -> index row y = Ok (nth (Z.to_nat y) row d).
Proof.
  intros Hy. unfold index.
  assert (E : (y <? 0)%Z = false) by (apply Z.ltb_ge; lia).
  rewrite !E.
  rewrite (nth_error_nth' row d) by (unfold len in Hy; lia).
  reflexivity.
Qed.

Lemma len_map {A B : Type} (f : A -> B) (row : list A) :
  len (map f row) = len row.
Proof. unfold len. rewrite length_map. reflexivity. Qed.

Lemma index_map {A B : Type} (f : A -> B) (row : list A) (y : Z) (a : A) :
  index row y = Ok a -> index (map f row) y = Ok (f a).
Proof.
  unfold index. rewrite len_map.
  destruct (_ <? 0)%Z; [discriminate|].
  rewrite nth_error_map.
  destruct (nth_error row _); [|discriminate].
  intros [= ->]. reflexivity.
Qed.

(** A negative index counts from the end. *)
Lemma index_wrap {A : Type} (row : list A) (y : Z) :
  (- len row <= y < 0)%Z -> index row y = index row (y + len row).
Proof.
  intros Hy. unfold index. cbv zeta.
  rewrite (proj2 (Z.ltb_lt y 0)) by lia.
  rewrite !(proj2 (Z.ltb_ge (y + len row) 0)) by lia.
  reflexivity.
Qed.

(** Whatever the indexing raises is an [IndexError]. *)
Lemma index_raises {A : Type} (row : list A) (i : Z) (e : exn) :
  index row i = Raise e -> e = IndexError.
Proof.
  unfold index. destruct (_ <? 0)%Z; [intros [= <-]; reflexivity|].
  destruct (nth_error row _); [discriminate|].
  intros [= <-]. reflexivity.
Qed.

Lemma traverse_raises {A B : Type} (f : A -> result B) (l : list A) (e : exn) :
  (forall x e', f x = Raise e' -> e' = IndexError) ->
  traverse f l = Raise e -> e = IndexError.
Proof.
  intros Hf. induction l as [|x l IH]; [discriminate|].
  cbn [traverse]. destruct (f x) as [b|e'] eqn:Hx.
  - cbn [bind]. destruct (traverse f l) as [bs|e''].
    + discriminate.
    + cbn [bind]. intros [= <-]. apply IH. reflexivity.
  - cbn [bind]. intros [= <-]. eapply Hf. exact Hx.
Qed.

Lemma gather_raises {A : Type} (rows : list (list A)) (ids : list Z)
    (e : exn) :
  gather rows ids = Raise e -> e = IndexError.
Proof.
  unfold gather. destruct (broadcast_to 3 ids) as [ids3|e'] eqn:Hb.
  - cbn [bind]. apply traverse_raises. intros [k i] e'.
    cbn [fst snd]. destruct (index rows k) as [row|e''] eqn:Hk.
    + cbn [bind]. apply index_raises.
    + cbn [bind]. intros [= <-]. eapply index_raises. exact Hk.
  - cbn [bind]. intros [= <-]. unfold broadcast_to in Hb.
    destruct (_ =? _)%nat; [discriminate|].
    destruct ids as [|i [|j ids]]; try discriminate;
      injection Hb as <-; reflexivity.
Qed.

Lemma target_probas_raises {A : Type} (probas : list (list (list A)))
    (targets : list (list Z)) (b : Z) (e : exn) :
  target_probas probas targets b = Raise e -> e = IndexError.
Proof.
  unfold target_probas.
  destruct (index targets b) as [ids|e'] eqn:Ht.
  - cbn [bind]. destruct (index probas b) as [rows|e''] eqn:Hp.
    + cbn [bind]. apply gather_raises.
    + cbn [bind]. intros [= <-]. eapply index_raises. exact Hp.
  - cbn [bind]. intros [= <-]. eapply index_raises. exact Ht.
Qed.

(** The gather on three rows and three indices. *)
Lemma gather3 {A : Type} (r0 r1 r2 : list A) (y0 y1 y2 : Z) :
  gather [r0; r1; r2] [y0; y1; y2]
  = (p0 <- index r0 y0 ;; p1 <- index r1 y1 ;; p2 <- index r2 y2 ;;
     Ok [p0; p1; p2]).
Proof.
  unfold gather.
  change (broadcast_to 3 [y0; y1; y2]) with (Ok [y0; y1; y2]).
  cbn [bind combine traverse fst snd].
  change (index [r0; r1; r2] 0) with (Ok r0).
  change (index [r0; r1; r2] 1) with (Ok r1).
  change (index [r0; r1; r2] 2) with (Ok r2).
  cbn [bind].
  destruct (index r0 y0), (index r1 y1), (index r2 y2); reflexivity.
Qed.

Lemma target_probas_at_0 {A : Type} (p0 : list (list A))
    (probas : list (list (list A))) (t0 : list Z) (targets : list (list Z)) :
  target_probas (p0 :: probas) (t0 :: targets) 0 = gather p0 t0.
Proof. reflexivity. Qed.

Lemma target_probas_at_1 {A : Type} (p0 p1 : list (list A))
    (probas : list (list (list A))) (t0 t1 : list Z)
    (targets : list (list Z)) :
  target_probas (p0 :: p1 :: probas) (t0 :: t1 :: targets) 1 = gather p1 t1.
Proof. reflexivity. Qed.

End Indexing.

Section ExactArithmetic.
Local Open Scope R_scope.

Lemma Rsum_exp_pos (row : list R) : row <> [] -> 0 < Rsum (map exp row).
Proof.
  intros Hne. destruct row as [|x row]; [congruence|]. clear Hne.
  revert x. induction row as [|y row IH]; intros x; simpl.
  - pose proof (exp_pos x). lra.
  - pose proof (exp_pos x). specialize (IH y). simpl in IH. lra.
Qed.

(** Shifting the logits by [m] scales the sum of exponentials by
    [exp (- m)]. *)
Lemma Rsum_exp_shift (m : R) (row : list R) :
  Rsum (map (fun x => exp (x - m)) row) = exp (- m) * Rsum (map exp row).
Proof.
  induction row as [|x row IH]; simpl; [lra|].
  rewrite IH. unfold Rminus. rewrite exp_plus. lra.
Qed.

(** The entry of the shifted log-softmax is the logarithm of the softmax
    probability, whatever the shift. *)
Lemma log_softmax_is_ln_softmax (m a : R) (row : list R) :
  row <> [] ->
  a - m - ln (Rsum (map (fun x => exp (x - m)) row))
  = ln (exp a / Rsum (map exp row)).
Proof.
  intros Hne. pose proof (Rsum_exp_pos row Hne) as Hpos.
  rewrite Rsum_exp_shift.
  rewrite ln_mult by (try apply exp_pos; assumption).
  unfold Rdiv.
  rewrite ln_mult by (try apply exp_pos; apply Rinv_0_lt_compat; assumption).
  rewrite ln_Rinv by assumption.
  rewrite !ln_exp. lra.
Qed.

Lemma Rsum_map_opp {A : Type} (f : A -> R) (l : list A) :
  Rsum (map (fun p => - f p) l) = - Rsum (map f l).
Proof.
  induction l as [|x l IH]; simpl; [lra|]. rewrite IH. lra.
Qed.

Lemma reals_map_Num (r : list R) : reals (map Num r) = Some r.
Proof.
  induction r as [|x r IH]; [reflexivity|].
  cbn [map reals]. rewrite IH. reflexivity.
Qed.

Lemma reals_length (row : list scalar) (r : list R) :
  reals row = Some r -> List.length r = List.length row.
Proof.
  revert r. induction row as [|[x|] row IH]; intros r H.
  - injection H as <-. reflexivity.
  - cbn [reals] in H. destruct (reals row) as [r'|]; [|discriminate].
    injection H as <-. simpl. rewrite (IH r' eq_refl). reflexivity.
  - discriminate.
Qed.

(** In exact arithmetic the softmax keeps the length of the row. *)
Lemma exact_softmax_length (row : list scalar) :
  List.length (softmax exact row) = List.length row.
Proof.
  cbn [softmax exact]. unfold exact_softmax.
  destruct (reals row) as [r|] eqn:Hr.
  - rewrite length_map. apply reals_length. exact Hr.
  - apply length_map.
Qed.

Lemma proba_pos (row : list R) (y : Z) : row <> [] -> 0 < proba row y.
Proof.
  intros Hne. unfold proba. apply Rdiv_lt_0_compat.
  - apply exp_pos.
  - apply Rsum_exp_pos. exact Hne.
Qed.

(** One position: the entry that the step-by-step cells gather from
    [probas]. *)
Lemma softmax_entry (row : list R) (y : Z) :
  (0 <= y < len row)%Z ->
  index (softmax exact (map Num row)) y = Ok (Num (proba row y)).
Proof.
  intros Hy. cbn [softmax exact]. unfold exact_softmax.
  rewrite reals_map_Num.
  apply (index_map (fun x => Num (exp x / Rsum (map exp row)))).
  apply index_nth. exact Hy.
Qed.

(** One position: the entry of [log_softmax] that [cross_entropy] reads is
    the logarithm of that probability. *)
Lemma log_softmax_entry (row : list R) (y : Z) :
  (0 <= y < len row)%Z ->
  index (log_softmax exact (map Num row)) y = Ok (Num (ln (proba row y))).
Proof.
  intros Hy. cbn [log_softmax exact]. unfold exact_log_softmax.
  rewrite reals_map_Num. cbv zeta.
  assert (Hne : row <> []).
  { intros ->. unfold len in Hy. simpl in Hy. lia. }
  etransitivity; [apply index_map, (index_nth row y 0 Hy)|].
  cbv beta. f_equal. f_equal. unfold proba.
  apply log_softmax_is_ln_softmax. exact Hne.
Qed.

Lemma log_exact (p : R) : 0 < p -> log exact (Num p) = Num (ln p).
Proof.
  intros Hp. cbn [log exact exact_log].
  destruct (Rlt_dec 0 p); [reflexivity|contradiction].
Qed.

Lemma mean_exact (l : list R) :
  l <> [] -> mean exact (map Num l) = Num (Rsum l / INR (List.length l)).
Proof.
  intros Hne. cbn [mean exact]. unfold exact_mean.
  rewrite reals_map_Num. destruct l; [congruence|reflexivity].
Qed.

(** The terms of [cross_entropy] on rows of real numbers with targets
    inside the vocabulary. *)
Lemma nll_terms_exact (rows : list (list R)) (ys : list Z) :
  Forall2 (fun row y => (0 <= y < len row)%Z) rows ys ->
  nll_terms exact (map (map Num) rows) ys
  = Ok (map Num (map (fun ry => - ln (proba (fst ry) (snd ry)))
                   (combine rows ys))).
Proof.
  induction 1 as [|row y rows ys Hy _ IH]; [reflexivity|].
  cbn [map nll_terms combine fst snd]. unfold ignore_index.
  rewrite len_map.
  destruct (Z.eqb_spec y (-100)); [lia|].
  destruct (Z.leb_spec 0 y); [|lia].
  destruct (Z.ltb_spec y (len row)); [|lia].
  cbn [andb]. rewrite log_softmax_entry by exact Hy.
  cbn [bind]. rewrite IH. reflexivity.
Qed.

Lemma flatten_in_range (B T V : nat) (logits : list (list (list R)))
    (targets : list (list Z)) :
  shape3 logits B T V -> shape2 targets B T -> in_vocab V targets ->
  Forall2 (fun row y => (0 <= y < len row)%Z)
    (flatten logits) (flatten targets)
  /\ List.length (flatten targets) = (B * T)%nat.
Proof.
  intros [HB Hl] [HB' Ht] Hv. subst B.
  revert targets HB' Ht Hv.
  induction Hl as [|rows logits [HT Hrows] _ IH];
    intros [|ids targets] HB' Ht Hv; try discriminate.
  - split; [constructor|reflexivity].
  - injection HB' as HB'.
    inversion Ht as [|? ? Hids Ht']; subst.
    inversion Hv as [|? ? Hin Hv']; subst.
    destruct (IH targets HB' Ht' Hv') as [IH1 IH2].
    unfold flatten in *. cbn [List.concat]. split.
    + apply Forall2_app; [|exact IH1].
      clear - Hrows Hids Hin. revert ids Hids Hin.
      induction Hrows as [|row rows Hrow _ IHr]; intros [|y ids] Hids Hin;
        try discriminate; [constructor|].
      injection Hids as Hids. inversion Hin as [|? ? Hy Hin']; subst.
      constructor; [unfold len; lia|].
      apply IHr; assumption.
    + rewrite length_app, IH2, Hids. simpl. lia.
Qed.

(** The loss cell in exact arithmetic, for every shape: the mean over all
    [B * T] entries. *)
Lemma loss_exact (B T V : nat) (logits : list (list (list R)))
    (targets : list (list Z)) :
  shape3 logits B T V -> shape2 targets B T -> in_vocab V targets ->
  (0 < B * T)%nat ->
  loss exact (of_reals logits) targets = Ok (Num (mean_nll logits targets)).
Proof.
  intros Hl Ht Hv Hpos.
  destruct (flatten_in_range B T V logits targets Hl Ht Hv) as [Hin Hlen].
  unfold loss, cross_entropy, of_reals, flatten in *.
  rewrite <- concat_map.
  assert (Hsame : List.length (List.concat logits)
                  = List.length (List.concat targets))
    by (eapply Forall2_length; exact Hin).
  unfold len. rewrite !length_map, Hsame, Z.eqb_refl.
  rewrite (nll_terms_exact _ _ Hin). cbn [bind].
  rewrite mean_exact.
  - unfold mean_nll, flatten.
    rewrite length_map, length_combine, Hsame, Nat.min_id. reflexivity.
  - intros Hnil. apply (f_equal (@List.length R)) in Hnil.
    rewrite length_map, length_combine, Hsame, Nat.min_id, Hlen in Hnil.
    simpl in Hnil. lia.
Qed.

(** The step-by-step cells in exact arithmetic: the mean over the six
    entries of the batch rows 0 and 1, whatever follows them. *)
Lemma neg_avg_log_probas_exact (V : nat) (l0 l1 : list (list R))
    (logits : list (list (list R))) (t0 t1 : list Z)
    (targets : list (list Z)) :
  shape2 l0 3 V -> shape2 l1 3 V ->
  List.length t0 = 3%nat -> List.length t1 = 3%nat ->
  Forall (fun y => (0 <= y < Z.of_nat V)%Z) t0 ->
  Forall (fun y => (0 <= y < Z.of_nat V)%Z) t1 ->
  neg_avg_log_probas exact (of_reals (l0 :: l1 :: logits))
    (t0 :: t1 :: targets)
  = Ok (Num (mean_nll [l0; l1] [t0; t1])).
Proof.
  intros [H0 Hr0] [H1 Hr1] Ht0 Ht1 Hv0 Hv1.
  destruct l0 as [|r00 [|r01 [|r02 [|]]]]; try discriminate.
  destruct l1 as [|r10 [|r11 [|r12 [|]]]]; try discriminate.
  destruct t0 as [|y00 [|y01 [|y02 [|]]]]; try discriminate.
  destruct t1 as [|y10 [|y11 [|y12 [|]]]]; try discriminate.
  repeat match goal with
         | H : Forall _ (_ :: _) |- _ =>
             let Hx := fresh "Hx" in
             pose proof (Forall_inv H) as Hx; cbv beta in Hx;
             apply Forall_inv_tail in H
         | H : Forall _ [] |- _ => clear H
         end.
  assert (Hin : forall (row : list R) (y : Z),
             List.length row = V -> (0 <= y < Z.of_nat V)%Z ->
             (0 <= y < len row)%Z /\ row <> []).
  { intros row y Hrow Hy. split; [unfold len; lia|].
    intros ->. simpl in Hrow. lia. }
  unfold neg_avg_log_probas, of_reals. cbn [map].
  rewrite target_probas_at_0, target_probas_at_1, !gather3.
  repeat (rewrite softmax_entry by (apply Hin; assumption); cbn [bind]).
  cbn [app map].
  assert (Hne : forall row : list R, List.length row = V -> row <> []).
  { intros row Hrow ->. simpl in Hrow. lia. }
  repeat (rewrite log_exact by (apply proba_pos, Hne; assumption)).
  change [Num (ln (proba r00 y00)); Num (ln (proba r01 y01));
          Num (ln (proba r02 y02)); Num (ln (proba r10 y10));
          Num (ln (proba r11 y11)); Num (ln (proba r12 y12))]
    with (map Num [ln (proba r00 y00); ln (proba r01 y01);
                   ln (proba r02 y02); ln (proba r10 y10);
                   ln (proba r11 y11); ln (proba r12 y12)]).
  rewrite mean_exact by discriminate.
  cbn [scale exact exact_scale]. f_equal. f_equal.
  unfold mean_nll, flatten.
  cbn [List.concat app combine map fst snd Rsum fold_right List.length].
  rewrite INR_IZR_INZ. cbn [Z.of_nat Pos.of_succ_nat Pos.succ]. field.
Qed.

End ExactArithmetic.

Section LossClaims.
Local Open Scope R_scope.

(** C3, as stated, fails: the step-by-step cells read the batch rows 0 and
    1 only.  On a batch of three rows they average six of the nine entries
    and differ from [cross_entropy], in exact arithmetic too; on a batch
    of one row they raise [IndexError] where [cross_entropy] returns.  And
    on the shape [(2, 3, 2)] itself, with the integer targets [-1], the
    cells return where [cross_entropy] raises [IndexError]. *)
Lemma neg_avg_log_probas_two_rows_only :
  (exists v w,
     neg_avg_log_probas exact
       (of_reals [[[0; 0]; [0; 0]; [0; 0]]; [[0; 0]; [0; 0]; [0; 0]];
                  [[1; 0]; [1; 0]; [1; 0]]])
       [[0; 0; 0]; [0; 0; 0]; [0; 0; 0]]%Z = Ok (Num v)
     /\ loss exact
          (of_reals [[[0; 0]; [0; 0]; [0; 0]]; [[0; 0]; [0; 0]; [0; 0]];
                     [[1; 0]; [1; 0]; [1; 0]]])
          [[0; 0; 0]; [0; 0; 0]; [0; 0; 0]]%Z = Ok (Num w)
     /\ v <> w)
  /\ neg_avg_log_probas exact (of_reals [[[0; 0]; [0; 0]; [0; 0]]])
       [[0; 0; 0]]%Z = Raise IndexError
  /\ (exists w,
        loss exact (of_reals [[[0; 0]; [0; 0]; [0; 0]]]) [[0; 0; 0]]%Z
        = Ok (Num w))
  /\ returns
       (neg_avg_log_probas exact
          (of_reals [[[0; 0]; [0; 0]; [0; 0]]; [[0; 0]; [0; 0]; [0; 0]]])
          [[-1; -1; -1]; [-1; -1; -1]]%Z)
  /\ loss exact
       (of_reals [[[0; 0]; [0; 0]; [0; 0]]; [[0; 0]; [0; 0]; [0; 0]]])
       [[-1; -1; -1]; [-1; -1; -1]]%Z
     = Raise IndexError.
Proof.
  split; [|split; [|split; [|split]]].
  - eexists. eexists. split; [|split].
    + apply (neg_avg_log_probas_exact 2);
        try (split; [reflexivity|repeat constructor]);
        try reflexivity; repeat constructor; simpl; lia.
    + apply (loss_exact 3 3 2).
      * split; [reflexivity|].
        repeat constructor.
      * split; [reflexivity|]. repeat constructor.
      * repeat constructor; simpl; lia.
      * simpl. lia.
    + unfold mean_nll, flatten, proba.
      cbn [List.concat app combine map fst snd Rsum fold_right List.length
           Z.to_nat nth].
      rewrite !INR_IZR_INZ. cbn [Z.of_nat Pos.of_succ_nat Pos.succ].
      rewrite exp_0.
      replace (1 / (1 + (1 + 0))) with (/ 2) by field.
      rewrite ln_Rinv by lra.
      set (q := exp 1 / (exp 1 + (1 + 0))).
      intros Heq.
      assert (Hq : ln q = - ln 2) by lra.
      rewrite <- ln_Rinv in Hq by lra.
      assert (He : 0 < exp 1) by apply exp_pos.
      apply ln_inv in Hq; [|unfold q; apply Rdiv_lt_0_compat; lra|lra].
      assert (H1 : 1 + 1 < exp 1) by (apply exp_ineq1; lra).
      unfold q in Hq.
      assert (H2 : exp 1 = / 2 * (exp 1 + (1 + 0))).
      { rewrite <- Hq. field. lra. }
      lra.
  - reflexivity.
  - eexists. apply (loss_exact 1 3 2).
    + split; [reflexivity|]. repeat constructor.
    + split; [reflexivity|]. repeat constructor.
    + repeat constructor; simpl; lia.
    + simpl. lia.
  - eexists. reflexivity.
  - reflexivity.
Qed.

(** C3, amended.  For logits of shape [(2, 3, V)], the shape the cells are
    written for, and targets of shape [(2, 3)] holding token ids of the
    vocabulary, the step-by-step loss (softmax, gather the probability of
    each target, log, mean, negate) and [cross_entropy] on the flattened
    tensors return the same value in exact real arithmetic: the mean, over
    the six entries, of minus the logarithm of the probability of the true
    next token. *)
Theorem neg_avg_log_probas_is_cross_entropy (V : nat)
    (logits : list (list (list R))) (targets : list (list Z)) :
  shape3 logits 2 3 V -> shape2 targets 2 3 -> in_vocab V targets ->
  neg_avg_log_probas exact (of_reals logits) targets
  = Ok (Num (mean_nll logits targets))
  /\ loss exact (of_reals logits) targets
     = Ok (Num (mean_nll logits targets)).
Proof.
  intros Hl Ht Hv. split.
  - destruct Hl as [HB Hl]. destruct Ht as [HB' Ht].
    destruct logits as [|l0 [|l1 [|]]]; try discriminate.
    destruct targets as [|t0 [|t1 [|]]]; try discriminate.
    inversion Hl as [|? ? Hl0 Hl']; subst.
    apply Forall_inv in Hl'.
    inversion Ht as [|? ? Ht0 Ht']; subst.
    apply Forall_inv in Ht'.
    inversion Hv as [|? ? Hv0 Hv']; subst.
    apply Forall_inv in Hv'.
    apply (neg_avg_log_probas_exact V); assumption.
  - apply (loss_exact 2 3 V); try assumption. simpl. lia.
Qed.

Lemma neg_avg_log_probas_is_cross_entropy_witness :
  neg_avg_log_probas exact
    (of_reals [[[1; 2]; [0; 3]; [2; 2]]; [[0; 0]; [5; 1]; [1; 4]]])
    [[0; 1; 1]; [1; 0; 0]]%Z
  = Ok (Num (mean_nll [[[1; 2]; [0; 3]; [2; 2]]; [[0; 0]; [5; 1]; [1; 4]]]
               [[0; 1; 1]; [1; 0; 0]]%Z))
  /\ loss exact
       (of_reals [[[1; 2]; [0; 3]; [2; 2]]; [[0; 0]; [5; 1]; [1; 4]]])
       [[0; 1; 1]; [1; 0; 0]]%Z
     = Ok (Num (mean_nll [[[1; 2]; [0; 3]; [2; 2]]; [[0; 0]; [5; 1]; [1; 4]]]
                  [[0; 1; 1]; [1; 0; 0]]%Z)).
Proof.
  apply (neg_avg_log_probas_is_cross_entropy 2).
  - split; [reflexivity|]. repeat constructor.
  - split; [reflexivity|]. repeat constructor.
  - repeat constructor; simpl; lia.
Defined.

End LossClaims.

(** ** Binary64 arithmetic *)

Section Binary64.
Local Open Scope Z_scope.

Lemma pow2_pos (k : Z) : 0 <= k -> 0 < 2 ^ k.
Proof. intros Hk. apply Z.pow_pos_nonneg; lia. Qed.

Lemma pow2_add (a b : Z) : 0 <= a -> 0 <= b -> 2 ^ (a + b) = 2 ^ a * 2 ^ b.
Proof. intros Ha Hb. apply Z.pow_add_r; assumption. Qed.

Lemma pow2_le (a b : Z) : 0 <= a <= b -> 2 ^ a <= 2 ^ b.
Proof. intros Hab. apply Z.pow_le_mono_r; lia. Qed.

Lemma pow2_lt (a b : Z) : 0 <= a < b -> 2 ^ a < 2 ^ b.
Proof. intros Hab. apply Z.pow_lt_mono_r; lia. Qed.

Lemma pow2_lt_inv (a b : Z) : 0 <= b -> 2 ^ a < 2 ^ b -> a < b.
Proof.
  intros Hb Hlt. destruct (Z.lt_ge_cases a b) as [|Hge]; [assumption|].
  pose proof (pow2_le b a ltac:(lia)). lia.
Qed.

Lemma pow2_succ (k : Z) : 0 <= k -> 2 ^ (k + 1) = 2 * 2 ^ k.
Proof. intros Hk. rewrite pow2_add by lia. lia. Qed.

Lemma fexp_eq (e : Z) : fexp prec emax e = Z.max (e - 53) (-1074).
Proof. reflexivity. Qed.

(** *** Number of binary digits *)

Lemma digits2_pos_bounds (p : positive) :
  2 ^ (Zpos (digits2_pos p) - 1) <= Zpos p < 2 ^ Zpos (digits2_pos p).
Proof.
  induction p as [p IH|p IH|]; cbn [digits2_pos].
  - rewrite Pos2Z.inj_succ.
    replace (Z.succ (Zpos (digits2_pos p)) - 1)
      with (Zpos (digits2_pos p) - 1 + 1) by lia.
    unfold Z.succ. rewrite !pow2_succ by lia. lia.
  - rewrite Pos2Z.inj_succ.
    replace (Z.succ (Zpos (digits2_pos p)) - 1)
      with (Zpos (digits2_pos p) - 1 + 1) by lia.
    unfold Z.succ. rewrite !pow2_succ by lia. lia.
  - simpl. lia.
Qed.

Lemma Zdigits2_nonneg (m : Z) : 0 <= Zdigits2 m.
Proof. destruct m; simpl; lia. Qed.

Lemma Zdigits2_bounds (m : Z) :
  0 < m -> 2 ^ (Zdigits2 m - 1) <= m < 2 ^ Zdigits2 m.
Proof.
  intros Hm. destruct m as [|p|p]; try lia. apply digits2_pos_bounds.
Qed.

Lemma Zdigits2_le (m k : Z) : 0 <= k -> 0 <= m < 2 ^ k -> Zdigits2 m <= k.
Proof.
  intros Hk Hm. destruct (Z.eq_dec m 0) as [->|Hne]; [simpl; lia|].
  pose proof (Zdigits2_bounds m ltac:(lia)) as Hb.
  pose proof (Zdigits2_nonneg m).
  destruct (Z.eq_dec (Zdigits2 m) 0) as [E|E]; [lia|].
  assert (Zdigits2 m - 1 < k); [|lia].
  apply pow2_lt_inv; lia.
Qed.

Lemma Zdigits2_ge (m k : Z) : 0 <= k -> 2 ^ k <= m -> k + 1 <= Zdigits2 m.
Proof.
  intros Hk Hm. pose proof (pow2_pos k Hk).
  pose proof (Zdigits2_bounds m ltac:(lia)) as Hb.
  pose proof (Zdigits2_nonneg m).
  assert (k < Zdigits2 m); [|lia].
  apply pow2_lt_inv; lia.
Qed.

(** *** Shifting a mantissa to the right *)

Lemma shr_1_m (mrs : shr_record) :
  0 <= shr_m mrs -> shr_m (shr_1 mrs) = shr_m mrs / 2.
Proof.
  destruct mrs as [m r s]. cbn [shr_m]. intros Hm.
  destruct m as [|[p|p|]|p]; cbn [shr_1 shr_m]; try lia.
  - reflexivity.
  - rewrite (Pos2Z.inj_xI p). Z.div_mod_to_equations. lia.
  - rewrite (Pos2Z.inj_xO p). Z.div_mod_to_equations. lia.
  - reflexivity.
Qed.

Lemma shr_1_r (mrs : shr_record) :
  0 <= shr_m mrs -> shr_r (shr_1 mrs) = Z.odd (shr_m mrs).
Proof.
  destruct mrs as [m r s]. cbn [shr_m]. intros Hm.
  destruct m as [|[p|p|]|p]; cbn [shr_1 shr_r]; try lia; reflexivity.
Qed.

Lemma iter_pos_shr_m (p : positive) (mrs : shr_record) :
  0 <= shr_m mrs ->
  shr_m (SpecFloat.iter_pos shr_1 p mrs) = shr_m mrs / 2 ^ Zpos p.
Proof.
  revert mrs. induction p as [p IH|p IH|]; intros mrs Hm; cbn [SpecFloat.iter_pos].
  - assert (H1 : 0 <= shr_m (shr_1 mrs)).
    { rewrite shr_1_m by assumption. apply Z.div_pos; lia. }
    assert (H2 : 0 <= shr_m (SpecFloat.iter_pos shr_1 p (shr_1 mrs))).
    { rewrite IH by assumption. apply Z.div_pos; [lia|apply pow2_pos; lia]. }
    rewrite IH by assumption. rewrite IH by assumption.
    rewrite shr_1_m by assumption.
    pose proof (pow2_pos (Zpos p) ltac:(lia)).
    rewrite !Z.div_div by lia.
    f_equal. replace (Zpos p~1) with (1 + Zpos p + Zpos p) by lia.
    rewrite !pow2_add by lia. lia.
  - assert (H2 : 0 <= shr_m (SpecFloat.iter_pos shr_1 p mrs)).
    { rewrite IH by assumption. apply Z.div_pos; [lia|apply pow2_pos; lia]. }
    rewrite IH by assumption. rewrite IH by assumption.
    pose proof (pow2_pos (Zpos p) ltac:(lia)).
    rewrite !Z.div_div by lia.
    f_equal. replace (Zpos p~0) with (Zpos p + Zpos p) by lia.
    rewrite !pow2_add by lia. lia.
  - rewrite shr_1_m by assumption. reflexivity.
Qed.

Lemma iter_pos_shr_r (p : positive) (mrs : shr_record) :
  0 <= shr_m mrs ->
  shr_r (SpecFloat.iter_pos shr_1 p mrs) = Z.testbit (shr_m mrs) (Zpos p - 1).
Proof.
  revert mrs. induction p as [p IH|p IH|]; intros mrs Hm; cbn [SpecFloat.iter_pos].
  - assert (H1 : 0 <= shr_m (shr_1 mrs)).
    { rewrite shr_1_m by assumption. apply Z.div_pos; lia. }
    assert (H2 : 0 <= shr_m (SpecFloat.iter_pos shr_1 p (shr_1 mrs))).
    { rewrite iter_pos_shr_m by assumption.
      apply Z.div_pos; [lia|apply pow2_pos; lia]. }
    rewrite IH by assumption.
    rewrite iter_pos_shr_m by assumption.
    rewrite shr_1_m by assumption.
    rewrite Z.div_pow2_bits by lia.
    change (shr_m mrs / 2) with (shr_m mrs / 2 ^ 1).
    rewrite Z.div_pow2_bits by lia.
    f_equal. lia.
  - assert (H2 : 0 <= shr_m (SpecFloat.iter_pos shr_1 p mrs)).
    { rewrite iter_pos_shr_m by assumption.
      apply Z.div_pos; [lia|apply pow2_pos; lia]. }
    rewrite IH by assumption.
    rewrite iter_pos_shr_m by assumption.
    rewrite Z.div_pow2_bits by lia.
    f_equal. lia.
  - rewrite shr_1_r by assumption. symmetry. apply Z.bit0_odd.
Qed.

(** A set round bit: the part shifted out is at least half a unit. *)
Lemma testbit_half (m p : Z) :
  0 <= m -> 0 < p -> Z.testbit m (p - 1) = true ->
  2 ^ (p - 1) <= m mod 2 ^ p.
Proof.
  intros Hm Hp Hbit.
  apply Z.testbit_true in Hbit; [|lia].
  pose proof (pow2_pos (p - 1) ltac:(lia)) as Hpos.
  replace p with (p - 1 + 1) at 2 by lia.
  rewrite pow2_succ by lia. rewrite (Z.mul_comm 2).
  rewrite Z.rem_mul_r by lia. rewrite Hbit.
  pose proof (Z.mod_pos_bound m (2 ^ (p - 1)) Hpos). lia.
Qed.

(** *** Rounding to nearest, ties to even *)

Lemma round_nearest_even_cases (mrs : shr_record) :
  round_nearest_even (shr_m mrs) (loc_of_shr_record mrs) = shr_m mrs
  \/ (round_nearest_even (shr_m mrs) (loc_of_shr_record mrs) = shr_m mrs + 1
      /\ shr_r mrs = true).
Proof.
  destruct mrs as [m [|] [|]]; cbn; try (destruct (Z.even m)); auto.
Qed.

(** The alignment step on an exact mantissa: the exponent becomes the
    larger of the given one and the canonical one, the mantissa loses the
    bits in between, and the round bit tells whether they made half a unit. *)
Lemma shr_fexp_exact (m e : Z) :
  0 <= m ->
  exists mrs,
    shr_fexp prec emax m e loc_Exact
    = (mrs, Z.max e (fexp prec emax (Zdigits2 m + e)))
    /\ shr_m mrs = m / 2 ^ (Z.max e (fexp prec emax (Zdigits2 m + e)) - e)
    /\ (shr_r mrs = true ->
        0 < Z.max e (fexp prec emax (Zdigits2 m + e)) - e
        /\ 2 ^ (Z.max e (fexp prec emax (Zdigits2 m + e)) - e - 1)
           <= m mod 2 ^ (Z.max e (fexp prec emax (Zdigits2 m + e)) - e)).
Proof.
  intros Hm. unfold shr_fexp, shr. cbn [shr_record_of_loc].
  set (f := fexp prec emax (Zdigits2 m + e)).
  destruct (f - e) as [|p|p] eqn:Hk.
  - exists {| shr_m := m; shr_r := false; shr_s := false |}.
    replace (Z.max e f) with e by lia. rewrite Z.sub_diag.
    cbn [shr_m shr_r]. split; [reflexivity|]. split.
    + rewrite Z.div_1_r. reflexivity.
    + discriminate.
  - exists (SpecFloat.iter_pos shr_1 p {| shr_m := m; shr_r := false; shr_s := false |}).
    replace (Z.max e f) with (e + Zpos p) by lia.
    replace (e + Zpos p - e) with (Zpos p) by lia.
    split; [reflexivity|]. split.
    + rewrite iter_pos_shr_m by exact Hm. reflexivity.
    + rewrite iter_pos_shr_r by exact Hm. cbn [shr_m]. intros Hbit.
      split; [lia|]. apply testbit_half; [exact Hm|lia|exact Hbit].
  - exists {| shr_m := m; shr_r := false; shr_s := false |}.
    replace (Z.max e f) with e by lia. rewrite Z.sub_diag.
    cbn [shr_m shr_r]. split; [reflexivity|]. split.
    + rewrite Z.div_1_r. reflexivity.
    + discriminate.
Qed.

(** Rounding an exact mantissa [M] at exponent [E]: the mantissa is cut at
    the canonical exponent and rounded up by at most one, only when the part
    cut off is at least half a unit; a mantissa that reaches [2^53] moves to
    the next exponent. *)
Lemma binary_round_aux_exact (s : bool) (M : positive) (E : Z) :
  exists m'',
    (m'' = Zpos M / 2 ^ (Z.max E (fexp prec emax (Zpos (digits2_pos M) + E)) - E)
     \/ (m'' = Zpos M / 2 ^ (Z.max E (fexp prec emax (Zpos (digits2_pos M) + E)) - E) + 1
         /\ 0 < Z.max E (fexp prec emax (Zpos (digits2_pos M) + E)) - E
         /\ 2 ^ (Z.max E (fexp prec emax (Zpos (digits2_pos M) + E)) - E - 1)
            <= Zpos M mod 2 ^ (Z.max E (fexp prec emax (Zpos (digits2_pos M) + E)) - E)))
    /\ 0 <= Zpos M / 2 ^ (Z.max E (fexp prec emax (Zpos (digits2_pos M) + E)) - E)
         < 2 ^ 53
    /\ binary_round_aux prec emax s (Zpos M) E loc_Exact
       = if m'' <? 2 ^ 53
         then float_of_mantissa s m''
                (Z.max E (fexp prec emax (Zpos (digits2_pos M) + E)))
         else float_of_mantissa s (2 ^ 52)
                (Z.max E (fexp prec emax (Zpos (digits2_pos M) + E)) + 1).
Proof.
  destruct (shr_fexp_exact (Zpos M) E ltac:(lia)) as (mrs & Hshr & Hm & Hr).
  change (Zdigits2 (Zpos M)) with (Zpos (digits2_pos M)) in *.
  set (d := Zpos (digits2_pos M)) in *.
  set (e' := Z.max E (fexp prec emax (d + E))) in *.
  set (p := e' - E) in *.
  assert (He' : -1074 <= e' /\ d + E - 53 <= e' /\ E <= e').
  { unfold e'. rewrite fexp_eq. lia. }
  assert (Hp : 0 <= p) by (unfold p; lia).
  pose proof (pow2_pos p Hp) as Hpp.
  assert (Hm' : 0 <= Zpos M / 2 ^ p < 2 ^ 53).
  { split; [apply Z.div_pos; lia|].
    apply Z.div_lt_upper_bound; [lia|].
    pose proof (digits2_pos_bounds M) as [_ Hd]. fold d in Hd.
    rewrite <- pow2_add by lia.
    assert (2 ^ d <= 2 ^ (p + 53)) by (apply pow2_le; unfold p; lia).
    lia. }
  unfold binary_round_aux. rewrite Hshr.
  set (m'' := round_nearest_even (shr_m mrs) (loc_of_shr_record mrs)).
  assert (Hcases : m'' = Zpos M / 2 ^ p
                   \/ (m'' = Zpos M / 2 ^ p + 1 /\ shr_r mrs = true)).
  { unfold m''. rewrite <- Hm. apply round_nearest_even_cases. }
  exists m''. split; [|split; [exact Hm'|]].
  { destruct Hcases as [H|[H Hbit]]; [left; exact H|right].
    split; [exact H|]. apply Hr. exact Hbit. }
  assert (Hm''0 : 0 <= m'') by (destruct Hcases as [H|[H _]]; lia).
  destruct (shr_fexp_exact m'' e' Hm''0) as (mrs2 & Hshr2 & Hm2 & _).
  rewrite Hshr2.
  change (match shr_m mrs2 with
          | 0 => S754_zero s
          | Zpos m =>
              if Z.max e' (fexp prec emax (Zdigits2 m'' + e')) <=? emax - prec
              then S754_finite s m
                     (Z.max e' (fexp prec emax (Zdigits2 m'' + e')))
              else S754_infinity s
          | Zneg _ => S754_nan
          end)
    with (float_of_mantissa s (shr_m mrs2)
            (Z.max e' (fexp prec emax (Zdigits2 m'' + e')))).
  rewrite Hm2.
  destruct (Z.ltb_spec m'' (2 ^ 53)) as [Hlt|Hge].
  - pose proof (Zdigits2_le m'' 53 ltac:(lia) ltac:(lia)) as Hd''.
    replace (Z.max e' (fexp prec emax (Zdigits2 m'' + e'))) with e'
      by (rewrite fexp_eq; lia).
    rewrite Z.sub_diag, Z.div_1_r. reflexivity.
  - assert (Heq : m'' = 2 ^ 53) by (destruct Hcases as [H|[H _]]; lia).
    rewrite Heq.
    change (Zdigits2 (2 ^ 53)) with 54.
    replace (Z.max e' (fexp prec emax (54 + e'))) with (e' + 1)
      by (rewrite fexp_eq; lia).
    replace (e' + 1 - e') with 1 by lia.
    reflexivity.
Qed.

End Binary64.

(** *** Conversions and products *)

Section Binary64Ops.
Local Open Scope Z_scope.

(** Zero, or a finite float whose mantissa is below [2^53] and whose
    exponent is at most [b]. *)
Lemma float_of_mantissa_small (s : bool) (m e b : Z) :
  0 <= m < 2 ^ 53 -> e <= b -> b <= 971 ->
  small_float b (float_of_mantissa s m e).
Proof.
  intros Hm He Hb. unfold float_of_mantissa.
  destruct m as [|q|q]; [exact I| |lia].
  change (emax - prec) with 971.
  destruct (Z.leb_spec e 971); [|lia].
  simpl. lia.
Qed.

Lemma binary_round_aux_small (s : bool) (M : positive) (E b : Z) :
  -1074 <= b -> E <= b -> Zpos (digits2_pos M) + E - 53 <= b -> b + 1 <= 971 ->
  small_float (b + 1) (binary_round_aux prec emax s (Zpos M) E loc_Exact).
Proof.
  intros Hb HE Hd Hmax.
  destruct (binary_round_aux_exact s M E) as (m'' & Hcases & Hm' & ->).
  assert (He' : Z.max E (fexp prec emax (Zpos (digits2_pos M) + E)) <= b)
    by (rewrite fexp_eq; lia).
  destruct (Z.ltb_spec m'' (2 ^ 53)).
  - apply float_of_mantissa_small; lia.
  - apply float_of_mantissa_small; [|lia|lia].
    split; [apply Z.pow_nonneg; lia|]. apply pow2_lt; lia.
Qed.

Lemma iter_xO_pow2 (m d : positive) :
  Zpos (Pos.iter xO m d) = Zpos m * 2 ^ Zpos d.
Proof.
  pose proof (shift_pos_correct d m) as H.
  unfold shift_pos in H. rewrite H.
  rewrite Zpower_pos_nat, Zpower_nat_Z, positive_nat_Z. lia.
Qed.

(** Aligning a mantissa to a smaller exponent keeps the value. *)
Lemma shl_align_spec (mx : positive) (ex ex' : Z) :
  exists mz ez,
    shl_align mx ex ex' = (mz, ez)
    /\ ez = Z.min ex ex'
    /\ Zpos mz = Zpos mx * 2 ^ (ex - ez).
Proof.
  unfold shl_align. destruct (ex' - ex) as [|d|d] eqn:Hd.
  - exists mx, ex. replace (Z.min ex ex') with ex by lia.
    rewrite Z.sub_diag. repeat split; lia.
  - exists mx, ex. replace (Z.min ex ex') with ex by lia.
    rewrite Z.sub_diag. repeat split; lia.
  - exists (Pos.iter xO mx d), ex'. replace (Z.min ex ex') with ex' by lia.
    split; [reflexivity|]. split; [reflexivity|].
    rewrite iter_xO_pow2. f_equal. f_equal. lia.
Qed.

(** [float(n)] for a length: no overflow, and a mantissa and an exponent
    within bounds. *)
Lemma float_of_int_small (n : Z) :
  0 <= n < 2 ^ 64 ->
  exists f, float_of_int n = Ok f /\ small_float 12 f.
Proof.
  intros Hn. unfold float_of_int, binary_normalize.
  destruct n as [|pn|pn]; [| |lia].
  - exists (S754_zero false). split; [reflexivity|exact I].
  - unfold binary_round.
    destruct (shl_align_spec pn 0 (fexp prec emax (Zpos (digits2_pos pn) + 0)))
      as (mz & ez & -> & Hez & Hmz).
    pose proof (digits2_pos_bounds pn) as Hdn.
    assert (Hdn64 : Zpos (digits2_pos pn) <= 64).
    { apply (Zdigits2_le (Zpos pn) 64); lia. }
    rewrite fexp_eq in Hez.
    assert (Hdz : Zpos (digits2_pos mz) <= Zpos (digits2_pos pn) - ez).
    { apply (Zdigits2_le (Zpos mz)); [lia|]. split; [lia|].
      rewrite Hmz. replace (Zpos (digits2_pos pn) - ez)
        with (Zpos (digits2_pos pn) + (0 - ez)) by lia.
      rewrite pow2_add by lia.
      pose proof (pow2_pos (0 - ez) ltac:(lia)). nia. }
    pose proof (binary_round_aux_small false mz ez 11
                  ltac:(lia) ltac:(lia) ltac:(lia) ltac:(lia)) as Hs.
    change (11 + 1) with 12 in Hs.
    destruct (binary_round_aux prec emax false (Zpos mz) ez loc_Exact)
      as [sz|sz| |sf mf ef] eqn:Hr; try contradiction.
    + exists (S754_zero sz). split; [reflexivity|exact Hs].
    + exists (S754_finite sf mf ef). split; [reflexivity|exact Hs].
Qed.

(** A valid finite float has a mantissa below [2^53]. *)
Lemma is_float_mantissa (s : bool) (m : positive) (e : Z) :
  is_float (S754_finite s m e) = true ->
  Zpos m < 2 ^ 53 /\ -1074 <= e <= 971
  /\ fexp prec emax (Zpos (digits2_pos m) + e) = e.
Proof.
  unfold is_float, valid_binary, bounded, canonical_mantissa.
  intros H. apply andb_prop in H. destruct H as [Hc Hb].
  apply Z.eqb_eq in Hc. apply Z.leb_le in Hb.
  change (emax - prec) with 971 in Hb.
  split; [|split; [|exact Hc]].
  - pose proof (digits2_pos_bounds m) as [_ Hd].
    rewrite fexp_eq in Hc.
    assert (2 ^ Zpos (digits2_pos m) <= 2 ^ 53) by (apply pow2_le; lia).
    lia.
  - rewrite fexp_eq in Hc. lia.
Qed.

Lemma moderate_small (r : float) : moderate r = true -> small_float 848 r.
Proof.
  unfold moderate. intros H. apply andb_prop in H. destruct H as [Hv Hlt].
  destruct r as [s|s| |s m e]; try exact I; try discriminate.
  destruct (is_float_mantissa s m e Hv) as (Hm & He & _).
  simpl. split; [exact Hm|].
  unfold flt, SFltb, SFabs, huge, SFcompare in Hlt.
  destruct (Z.compare_spec e 848); lia || discriminate.
Qed.

(** The comparison of mantissas in [SFcompare] is the one of [Pos]. *)
Lemma compare_cont_Eq_lt (p q : positive) :
  PosDef.Pos.compare_cont Eq p q = Lt -> Zpos p < Zpos q.
Proof.
  intros H. apply Pos2Z.pos_lt_pos. unfold Pos.lt, Pos.compare. exact H.
Qed.

(** A ratio in (0,1) is a positive finite float with an exponent of at most
    [-53]. *)
Lemma unit_ratio_inv (r : float) :
  unit_ratio r = true ->
  exists mr er,
    r = S754_finite false mr er /\ Zpos mr < 2 ^ 53 /\ -1074 <= er <= -53.
Proof.
  unfold unit_ratio. intros H.
  apply andb_prop in H. destruct H as [H H1].
  apply andb_prop in H. destruct H as [Hv H0].
  destruct r as [s|s| |s m e]; try discriminate.
  - destruct s; discriminate.
  - destruct s; [discriminate|].
    exists m, e. split; [reflexivity|].
    destruct (is_float_mantissa false m e Hv) as (Hm & He & Hc).
    split; [exact Hm|]. split; [lia|].
    unfold flt, SFltb, one, SFcompare in H1.
    destruct (Z.compare_spec e (-52)) as [Heq|Hlt|Hgt]; try lia; try discriminate.
    exfalso. subst e.
    destruct (PosDef.Pos.compare_cont Eq m 4503599627370496) eqn:Hcmp;
      try discriminate H1.
    apply compare_cont_Eq_lt in Hcmp.
    rewrite fexp_eq in Hc.
    assert (Hd53 : Zpos (digits2_pos m) = 53) by (clear - Hc; lia).
    assert (Hm52 : 0 <= Zpos m < 2 ^ 52).
    { change (2 ^ 52) with (Zpos 4503599627370496).
      split; [apply Pos2Z.is_nonneg|exact Hcmp]. }
    pose proof (Zdigits2_le (Zpos m) 52 ltac:(clear; lia) Hm52) as Hle.
    cbn [Zdigits2] in Hle. clear - Hle Hd53. lia.
Qed.

Lemma unit_ratio_small (r : float) : unit_ratio r = true -> small_float 848 r.
Proof.
  intros H. destruct (unit_ratio_inv r H) as (mr & er & -> & Hm & He).
  simpl. lia.
Qed.

(** The product of a moderate float and the float of a length is zero or
    finite. *)
Lemma fmul_small (x y : float) :
  small_float 848 x -> small_float 12 y -> small_float 971 (fmul x y).
Proof.
  intros Hx Hy. unfold fmul, SFmul.
  destruct x as [sx|sx| |sx mx ex]; try contradiction;
    destruct y as [sy|sy| |sy my ey]; try contradiction; try exact I.
  simpl in Hx, Hy.
  change 971 with (970 + 1).
  apply binary_round_aux_small; try lia.
  assert (Hd : Zpos (digits2_pos (mx * my)) <= 106).
  { apply (Zdigits2_le (Zpos (mx * my)) 106); [lia|].
    rewrite Pos2Z.inj_mul. change (2 ^ 106) with (2 ^ 53 * 2 ^ 53). nia. }
  lia.
Qed.

Lemma int_of_float_small (b : Z) (x : float) :
  small_float b x -> returns (int_of_float x).
Proof.
  unfold returns. destruct x as [s|s| |s m e]; try contradiction; simpl; eauto.
Qed.

(** The index computation returns for every moderate ratio and every
    length. *)
Lemma fmul_int_small (r : float) (n : Z) :
  small_float 848 r -> 0 <= n <= PY_SSIZE_T_MAX ->
  exists x, fmul_int r n = Ok x /\ small_float 971 x.
Proof.
  intros Hr Hn. unfold fmul_int.
  destruct (float_of_int_small n) as (f & -> & Hf).
  { unfold PY_SSIZE_T_MAX in Hn. lia. }
  simpl. eexists. split; [reflexivity|]. apply fmul_small; assumption.
Qed.

End Binary64Ops.

(** *** [int] as a floor *)

Section Floor.
Local Open Scope Z_scope.

Lemma pos_pow_1_l (p : positive) : (1 ^ p = 1)%positive.
Proof.
  apply Pos2Z.inj. rewrite Pos2Z.inj_pow. apply Z.pow_1_l. lia.
Qed.

Lemma Qpower_2_pos (p : positive) :
  ((2 # 1) ^ Zpos p == inject_Z (2 ^ Zpos p))%Q.
Proof.
  rewrite Qpower_decomp_pos. rewrite pos_pow_1_l. reflexivity.
Qed.

Lemma Qpower_2_neg (p : positive) :
  ((2 # 1) ^ Zneg p == 1 # (2 ^ p)%positive)%Q.
Proof.
  rewrite (Qpower_decomp_neg_pos p 2 1). rewrite Z.pow_1_l by lia.
  reflexivity.
Qed.

(** The floor of a dyadic number. *)
Lemma Qfloor_dyadic (m e : Z) :
  Qfloor (inject_Z m * (2 # 1) ^ e) = Z.shiftl m e.
Proof.
  destruct e as [|p|p].
  - rewrite Z.shiftl_0_r. change ((2 # 1) ^ 0)%Q with 1%Q.
    rewrite Qmult_1_r. apply Qfloor_Z.
  - rewrite Z.shiftl_mul_pow2 by lia.
    rewrite Qpower_2_pos, <- inject_Z_mult. apply Qfloor_Z.
  - rewrite Z.shiftl_div_pow2 by lia.
    rewrite Qpower_2_neg.
    change (- Zneg p) with (Zpos p).
    unfold Qfloor, Qmult, inject_Z. cbn [Qnum Qden].
    rewrite Z.mul_1_r, Pos.mul_1_l, Pos2Z.inj_pow. reflexivity.
Qed.

(** For a float that is not negative, [int] is the floor of its value. *)
Lemma int_of_float_floor (x : float) :
  is_nonneg x = true -> int_of_float x = Ok (Qfloor (Q_of_float x)).
Proof.
  destruct x as [s|s| |s m e]; try discriminate.
  - intros _. reflexivity.
  - destruct s; [discriminate|]. intros _.
    cbn [int_of_float Q_of_float cond_Zopp]. rewrite Qfloor_dyadic.
    reflexivity.
Qed.

(** The floor of the exact product of a ratio below 1 and a length. *)
Lemma Qfloor_exact_product (mr : positive) (er n : Z) :
  er < 0 ->
  Qfloor (Q_of_float (S754_finite false mr er) * inject_Z n)
  = Zpos mr * n / 2 ^ (- er).
Proof.
  intros Her. destruct er as [|p|p]; try lia.
  cbn [Q_of_float cond_Zopp]. change (- Zneg p) with (Zpos p).
  transitivity (Qfloor (inject_Z (Zpos mr * n) * (2 # 1) ^ Zneg p)).
  - apply Qfloor_comp. rewrite inject_Z_mult. ring.
  - rewrite Qfloor_dyadic. apply Z.shiftl_div_pow2. lia.
Qed.

End Floor.

(** *** The product of a ratio in (0,1) and a length *)

Section UnitProduct.
Local Open Scope Z_scope.

(** A length below [2^53] converts exactly, to a normalised mantissa. *)
Lemma float_of_int_exact (n : Z) :
  0 < n < 2 ^ 53 ->
  exists mn en,
    float_of_int n = Ok (S754_finite false mn en)
    /\ -52 <= en <= 0
    /\ Zpos mn = n * 2 ^ (- en)
    /\ 2 ^ 52 <= Zpos mn < 2 ^ 53.
Proof.
  intros Hn. unfold float_of_int, binary_normalize.
  destruct n as [|pn|pn]; try lia.
  unfold binary_round.
  destruct (shl_align_spec pn 0 (fexp prec emax (Zpos (digits2_pos pn) + 0)))
    as (mz & ez & -> & Hez & Hmz).
  pose proof (digits2_pos_bounds pn) as Hdn.
  set (dn := Zpos (digits2_pos pn)) in *.
  assert (Hdn53 : 1 <= dn <= 53).
  { split; [unfold dn; lia|]. apply (Zdigits2_le (Zpos pn) 53); lia. }
  rewrite fexp_eq in Hez.
  assert (Hez' : ez = dn - 53) by lia. clear Hez.
  assert (Hmz' : Zpos mz = Zpos pn * 2 ^ (53 - dn)).
  { rewrite Hmz. f_equal. f_equal. lia. }
  assert (Hmzb : 2 ^ 52 <= Zpos mz < 2 ^ 53).
  { assert (E52 : 2 ^ 52 = 2 ^ (dn - 1) * 2 ^ (53 - dn)).
    { rewrite <- pow2_add by lia. f_equal. lia. }
    assert (E53 : 2 ^ 53 = 2 ^ dn * 2 ^ (53 - dn)).
    { rewrite <- pow2_add by lia. f_equal. lia. }
    rewrite Hmz', E52, E53.
    pose proof (pow2_pos (53 - dn) ltac:(lia)). nia. }
  assert (Hdz : Zpos (digits2_pos mz) = 53).
  { pose proof (Zdigits2_le (Zpos mz) 53 ltac:(lia) ltac:(lia)) as H1.
    pose proof (Zdigits2_ge (Zpos mz) 52 ltac:(lia) ltac:(lia)) as H2.
    simpl in H1, H2. lia. }
  destruct (binary_round_aux_exact false mz ez) as (m'' & Hcases & Hm' & ->).
  rewrite Hdz in *. rewrite fexp_eq in *.
  replace (Z.max ez (Z.max (53 + ez - 53) (-1074))) with ez in * by lia.
  rewrite Z.sub_diag, Z.div_1_r in *.
  assert (Hm'' : m'' = Zpos mz) by (destruct Hcases as [H|[_ [H _]]]; lia).
  rewrite Hm''.
  destruct (Z.ltb_spec (Zpos mz) (2 ^ 53)) as [_|]; [|lia].
  unfold float_of_mantissa. change (emax - prec) with 971.
  destruct (Z.leb_spec ez 971); [|lia].
  exists mz, ez. split; [reflexivity|]. split; [lia|].
  split; [|exact Hmzb]. rewrite Hmz'. f_equal. f_equal. lia.
Qed.

(** [int] of a rounded product that lies below [2^53]: the mantissa
    divided by a power of two. *)
Lemma int_of_float_rounded (s : bool) (m e : Z) :
  0 <= m <= 2 ^ 53 -> e <= 0 ->
  int_of_float (if m <? 2 ^ 53 then float_of_mantissa s m e
                else float_of_mantissa s (2 ^ 52) (e + 1))
  = Ok (cond_Zopp s (m / 2 ^ (- e))).
Proof.
  intros Hm He.
  destruct (Z.ltb_spec m (2 ^ 53)) as [Hlt|Hge].
  - unfold float_of_mantissa. destruct m as [|q|q]; [| |lia].
    + rewrite Z.div_0_l by (pose proof (pow2_pos (- e)); lia).
      destruct s; reflexivity.
    + change (emax - prec) with 971.
      destruct (Z.leb_spec e 971); [|lia].
      cbn [int_of_float]. rewrite Z.shiftl_div_pow2 by lia. reflexivity.
  - assert (m = 2 ^ 53) by lia. subst m.
    change (float_of_mantissa s (2 ^ 52) (e + 1))
      with (if e + 1 <=? 971 then S754_finite s 4503599627370496 (e + 1)
            else S754_infinity s).
    destruct (Z.leb_spec (e + 1) 971); [|lia].
    cbn [int_of_float]. f_equal. f_equal.
    destruct (Z.eq_dec e 0) as [->|Hne].
    + reflexivity.
    + rewrite Z.shiftl_div_pow2 by lia.
      change (Zpos 4503599627370496) with (2 ^ 52).
      replace (- e) with (- (e + 1) + 1) by lia.
      rewrite (pow2_succ (- (e + 1))) by lia.
      change (2 ^ 53) with (2 * 2 ^ 52).
      rewrite Z.div_mul_cancel_l; [reflexivity| |lia].
      pose proof (pow2_pos (- (e + 1))). lia.
Qed.

(** A mantissa below [2^53] at an exponent [-a <= -53] is at least
    [2^(a-53)] short of [2^a]. *)
Lemma mantissa_gap (mr a : Z) :
  0 < mr < 2 ^ 53 -> 53 <= a -> mr + 2 ^ (a - 53) <= 2 ^ a.
Proof.
  intros Hmr Ha.
  replace a with ((a - 53) + 53) at 2 by lia.
  rewrite pow2_add by lia.
  pose proof (pow2_pos (a - 53) ltac:(lia)). nia.
Qed.

(** Rounding up adds less than the gap between the product and the
    length. *)
Lemma round_up_below (M mr mn a d p : Z) :
  0 < mr < 2 ^ 53 -> 53 <= a -> 2 ^ 52 <= mn < 2 ^ 53 ->
  M = mr * mn -> 2 ^ (d - 1) <= M ->
  0 < p <= Z.max (d - 53) (a - 1022) ->
  M + 2 ^ (p - 1) < mn * 2 ^ a.
Proof.
  intros Hmr Ha Hmn HM Hd Hp.
  pose proof (mantissa_gap mr a Hmr Ha) as Hgap.
  pose proof (pow2_pos (a - 53) ltac:(lia)) as Hu.
  assert (Hhalf : 2 ^ (p - 1) < mn * 2 ^ (a - 53)).
  { destruct (Z.le_gt_cases p (d - 53)) as [Hc|Hc].
    - assert (H1 : 2 ^ (p - 1) <= 2 ^ (d - 54)) by (apply pow2_le; lia).
      assert (H2 : 2 ^ (d - 1) = 2 ^ (d - 54) * 2 ^ 53).
      { rewrite <- pow2_add by lia. f_equal. lia. }
      assert (H3 : 2 ^ a = 2 ^ (a - 53) * 2 ^ 53).
      { rewrite <- pow2_add by lia. f_equal. lia. }
      assert (H4 : 2 ^ (d - 54) * 2 ^ 53 < mn * 2 ^ (a - 53) * 2 ^ 53) by nia.
      assert (H5 : 2 ^ (d - 54) < mn * 2 ^ (a - 53)) by nia.
      lia.
    - assert (H1 : 2 ^ (p - 1) < 2 ^ (a - 53)) by (apply pow2_lt; lia).
      nia. }
  nia.
Qed.

Lemma float_of_mantissa_nonneg (m e : Z) :
  0 <= m -> e <= 971 -> is_nonneg (float_of_mantissa false m e) = true.
Proof.
  intros Hm He. unfold float_of_mantissa.
  destruct m as [|q|q]; [reflexivity| |lia].
  change (emax - prec) with 971.
  destruct (Z.leb_spec e 971); [reflexivity|lia].
Qed.

Lemma div_succ_le (x y : Z) : 0 < y -> (x + 1) / y <= x / y + 1.
Proof.
  intros Hy. rewrite <- (Z.div_add x 1 y) by lia.
  apply Z.div_le_mono; lia.
Qed.

(** The split index for a ratio in (0,1) and a length below [2^53]: the
    floor of the exact product, or one more; never the length itself. *)
Lemma split_index_bounds (r : float) (n : Z) :
  unit_ratio r = true -> 0 <= n < 2 ^ 53 ->
  exists mr er x idx,
    r = S754_finite false mr er
    /\ fmul_int r n = Ok x
    /\ is_nonneg x = true
    /\ int_of_float x = Ok idx
    /\ Zpos mr * n / 2 ^ (- er) <= idx <= Zpos mr * n / 2 ^ (- er) + 1
    /\ 0 <= idx <= n
    /\ (0 < n -> idx < n).
Proof.
  intros Hr Hn.
  destruct (unit_ratio_inv r Hr) as (mr & er & -> & Hmr & Her).
  exists mr, er.
  pose proof (pow2_pos (- er) ltac:(lia)) as Hpa.
  destruct (Z.eq_dec n 0) as [->|Hn0].
  - exists (S754_zero false), 0.
    rewrite Z.mul_0_r, Z.div_0_l by lia.
    repeat split; try reflexivity; lia.
  - destruct (float_of_int_exact n ltac:(lia)) as (mn & en & Hf & Hen & Hmn & Hmnb).
    unfold fmul_int. rewrite Hf. cbn [bind fmul SFmul xorb].
    destruct (binary_round_aux_exact false (mr * mn) (er + en))
      as (m'' & Hcases & Hm' & ->).
    pose proof (digits2_pos_bounds (mr * mn)) as Hd.
    set (d := Zpos (digits2_pos (mr * mn))) in *.
    rewrite Pos2Z.inj_mul in *.
    set (M := Zpos mr * Zpos mn) in *.
    assert (HMlt : M < Zpos mn * 2 ^ (- er)).
    { assert (2 ^ 53 <= 2 ^ (- er)) by (apply pow2_le; lia).
      unfold M. rewrite (Z.mul_comm (Zpos mn)).
      apply Z.mul_lt_mono_pos_r; lia. }
    assert (Hd106 : d <= 106).
    { apply (Zdigits2_le (Zpos (mr * mn)) 106); [lia|].
      rewrite Pos2Z.inj_mul. fold M. split; [unfold M; lia|].
      change (2 ^ 106) with (2 ^ 53 * 2 ^ 53). unfold M.
      apply Z.mul_lt_mono_nonneg; lia. }
    rewrite fexp_eq in *.
    set (e' := Z.max (er + en) (Z.max (d + (er + en) - 53) (-1074))) in *.
    set (p := e' - (er + en)) in *.
    assert (He' : -1074 <= e' <= 0) by (unfold e'; lia).
    assert (Hp : 0 <= p) by (unfold p, e'; lia).
    pose proof (pow2_pos p Hp) as Hpp.
    pose proof (pow2_pos (- e') ltac:(lia)) as Hpq.
    pose proof (pow2_pos (- en) ltac:(lia)) as Hpk.
    assert (Hsplit : 2 ^ p * 2 ^ (- e') = 2 ^ (- er) * 2 ^ (- en)).
    { rewrite <- !pow2_add by lia. f_equal. unfold p. lia. }
    assert (HF : M / 2 ^ p / 2 ^ (- e') = Zpos mr * n / 2 ^ (- er)).
    { rewrite Z.div_div by lia. rewrite Hsplit.
      unfold M. rewrite Hmn, Z.mul_assoc.
      apply Z.div_mul_cancel_r; lia. }
    assert (Hm''b : 0 <= m'' <= 2 ^ 53)
      by (destruct Hcases as [H|[H _]]; lia).
    eexists. exists (m'' / 2 ^ (- e')).
    split; [reflexivity|]. split; [reflexivity|].
    split.
    { destruct (Z.ltb_spec m'' (2 ^ 53)).
      - apply float_of_mantissa_nonneg; lia.
      - apply float_of_mantissa_nonneg; [apply Z.pow_nonneg|]; lia. }
    split; [apply int_of_float_rounded; lia|].
    assert (Hlo : M / 2 ^ p / 2 ^ (- e') <= m'' / 2 ^ (- e')).
    { apply Z.div_le_mono; [lia|]. destruct Hcases as [H|[H _]]; lia. }
    assert (Hhi : m'' / 2 ^ (- e') <= M / 2 ^ p / 2 ^ (- e') + 1).
    { destruct Hcases as [H|[H _]]; rewrite H; [lia|].
      apply div_succ_le; lia. }
    assert (Hlt : m'' * 2 ^ p < Zpos mn * 2 ^ (- er)).
    { pose proof (Z.div_mod M (2 ^ p) ltac:(lia)) as Hdm.
      pose proof (Z.mod_pos_bound M (2 ^ p) ltac:(lia)) as Hmod.
      destruct Hcases as [H|(H & Hp0 & Hhalf)]; rewrite H.
      - clear - Hdm Hmod HMlt. lia.
      - pose proof (round_up_below M (Zpos mr) (Zpos mn) (- er) d p
                      ltac:(lia) ltac:(lia) Hmnb eq_refl ltac:(lia)
                      ltac:(unfold p, e' in *; lia)) as Hup.
        assert (H2 : 2 ^ p = 2 * 2 ^ (p - 1)).
        { replace p with (p - 1 + 1) at 1 by lia. apply pow2_succ. lia. }
        replace (e' - (er + en) - 1) with (p - 1) in Hhalf
          by (unfold p; lia).
        fold p in Hhalf.
        clear - Hdm Hmod Hup H2 Hhalf. lia. }
    assert (Hidx : m'' / 2 ^ (- e') < n).
    { assert (H3 : Zpos mn * 2 ^ (- er) = 2 ^ (- e') * n * 2 ^ p).
      { rewrite Hmn.
        transitivity (n * (2 ^ (- er) * 2 ^ (- en))); [ring|].
        rewrite <- Hsplit. ring. }
      rewrite H3 in Hlt.
      apply Z.mul_lt_mono_pos_r in Hlt; [|lia].
      apply Z.div_lt_upper_bound; [lia|exact Hlt]. }
    rewrite HF in Hlo, Hhi.
    split; [lia|]. split; [|lia].
    split; [|lia].
    apply Z.div_pos; lia.
Qed.

End UnitProduct.

(** ** The train/validation split *)

Section Split.
Local Open Scope Z_scope.

Lemma unit_ratio_moderate (r : float) :
  unit_ratio r = true -> moderate r = true.
Proof.
  intros Hr. destruct (unit_ratio_inv r Hr) as (mr & er & -> & Hmr & Her).
  unfold unit_ratio in Hr.
  apply andb_prop in Hr. destruct Hr as [Hr _].
  apply andb_prop in Hr. destruct Hr as [Hv _].
  unfold moderate. rewrite Hv.
  unfold flt, SFltb, SFabs, huge, SFcompare.
  rewrite (proj2 (Z.compare_lt_iff er 848)) by lia. reflexivity.
Qed.

(** The split returns for every moderate ratio, and the two parts make the
    corpus. *)
Lemma split_data_moderate (r : float) (text_data : str) :
  moderate r = true -> len text_data <= PY_SSIZE_T_MAX ->
  exists idx,
    split_idx r text_data = Ok idx
    /\ split_data r text_data
       = Ok (slice_to text_data idx, slice_from text_data idx)
    /\ slice_to text_data idx ++ slice_from text_data idx = text_data.
Proof.
  intros Hr Hlen.
  destruct (fmul_int_small r (len text_data) (moderate_small r Hr))
    as (x & Hx & Hs).
  { pose proof (len_nonneg text_data). lia. }
  destruct (int_of_float_small 971 x Hs) as [idx Hidx].
  exists idx.
  assert (Hsplit : split_idx r text_data = Ok idx).
  { unfold split_idx. rewrite Hx. exact Hidx. }
  split; [exact Hsplit|]. split.
  - unfold split_data. rewrite Hsplit. reflexivity.
  - apply slice_to_from.
Qed.

(** C1.  For every corpus and every ratio in (0,1) the split returns, and
    its two results concatenate back to the corpus: no character is dropped
    or duplicated. *)
Theorem split_data_concat (r : float) (text_data : str) :
  unit_ratio r = true -> len text_data <= PY_SSIZE_T_MAX ->
  exists train_data val_data,
    split_data r text_data = Ok (train_data, val_data)
    /\ train_data ++ val_data = text_data.
Proof.
  intros Hr Hlen.
  destruct (split_data_moderate r text_data (unit_ratio_moderate r Hr) Hlen)
    as (idx & _ & Hsplit & Hcat).
  exists (slice_to text_data idx), (slice_from text_data idx).
  split; assumption.
Qed.

Lemma split_data_concat_witness :
  exists train_data val_data,
    split_data train_ratio (list_ascii_of_string "Every effort moves you")
    = Ok (train_data, val_data)
    /\ train_data ++ val_data = list_ascii_of_string "Every effort moves you".
Proof.
  apply split_data_concat.
  - reflexivity.
  - vm_compute. discriminate.
Defined.

(** C4, as stated, fails: with the ratio 1.5, outside (0,1), and with an
    empty corpus the split returns a pair and raises nothing. *)
Lemma split_data_no_validation :
  unit_ratio three_halves = false
  /\ split_data three_halves (list_ascii_of_string "ab")
     = Ok (list_ascii_of_string "ab", [])
  /\ split_data train_ratio [] = Ok ([], []).
Proof. repeat split; reflexivity. Qed.

(** What the split raises is what [int] raises on a product that is
    infinite or NaN. *)
Lemma split_data_raises (r : float) (text_data : str) (e : exn) :
  len text_data <= PY_SSIZE_T_MAX ->
  split_data r text_data = Raise e ->
  exists x,
    fmul_int r (len text_data) = Ok x /\ is_finite x = false
    /\ int_of_float x = Raise e.
Proof.
  intros Hlen Hraise.
  destruct (float_of_int_small (len text_data)) as (f & Hf & _).
  { pose proof (len_nonneg text_data). unfold PY_SSIZE_T_MAX in Hlen. lia. }
  unfold split_data, split_idx, fmul_int in *. rewrite Hf in *.
  cbn [bind] in *. exists (fmul r f). split; [reflexivity|].
  destruct (fmul r f) as [s|s| |s m ex]; cbn [int_of_float bind] in *;
    try discriminate; split; try reflexivity;
    injection Hraise as <-; reflexivity.
Qed.

(** C4, amended.  The split validates nothing.  For every finite ratio of
    magnitude below [2^900], inside (0,1) or not, and every corpus, empty or
    not, it returns the two slices at [int(r * len)], which concatenate to
    the corpus; and whatever it raises is the error of [int] on a product
    that is infinite or NaN. *)
Theorem split_data_total (r : float) (text_data : str) :
  len text_data <= PY_SSIZE_T_MAX ->
  (moderate r = true ->
   exists idx,
     split_idx r text_data = Ok idx
     /\ split_data r text_data
        = Ok (slice_to text_data idx, slice_from text_data idx)
     /\ slice_to text_data idx ++ slice_from text_data idx = text_data)
  /\ (forall e, split_data r text_data = Raise e ->
      exists x,
        fmul_int r (len text_data) = Ok x /\ is_finite x = false
        /\ int_of_float x = Raise e).
Proof.
  intros Hlen. split.
  - intros Hr. apply split_data_moderate; assumption.
  - intros e. apply split_data_raises. exact Hlen.
Qed.

Lemma split_data_total_witness :
  (exists idx,
     split_idx (SFopp three_halves) (list_ascii_of_string "abc") = Ok idx
     /\ split_data (SFopp three_halves) (list_ascii_of_string "abc")
        = Ok (slice_to (list_ascii_of_string "abc") idx,
              slice_from (list_ascii_of_string "abc") idx)
     /\ slice_to (list_ascii_of_string "abc") idx
        ++ slice_from (list_ascii_of_string "abc") idx
        = list_ascii_of_string "abc")
  /\ split_data (SFopp three_halves) (list_ascii_of_string "abc")
     = Ok ([], list_ascii_of_string "abc").
Proof.
  split; [|reflexivity].
  apply (split_data_total (SFopp three_halves) (list_ascii_of_string "abc")).
  - vm_compute. discriminate.
  - reflexivity.
Defined.

(** The literals [0.90] and [0.7] are read as the doubles nearest to 9/10
    and 7/10: each lies within half a unit in the last place. *)
Lemma train_ratio_nearest :
  (Q_of_float train_ratio - (1 # 2 ^ 54) < 9 # 10
   /\ 9 # 10 < Q_of_float train_ratio + (1 # 2 ^ 54))%Q.
Proof. split; vm_compute; reflexivity. Qed.

Lemma seven_tenths_nearest :
  (Q_of_float seven_tenths - (1 # 2 ^ 54) < 7 # 10
   /\ 7 # 10 < Q_of_float seven_tenths + (1 # 2 ^ 54))%Q.
Proof. split; vm_compute; reflexivity. Qed.

(** The index for a ratio in (0,1) and a corpus of fewer than [2^53]
    characters. *)
Lemma split_idx_unit (r : float) (text_data : str) :
  unit_ratio r = true -> len text_data < 2 ^ 53 ->
  exists x idx,
    fmul_int r (len text_data) = Ok x
    /\ split_idx r text_data = Ok idx
    /\ idx = Qfloor (Q_of_float x)
    /\ Qfloor (Q_of_float r * inject_Z (len text_data)) <= idx
       <= Qfloor (Q_of_float r * inject_Z (len text_data)) + 1
    /\ 0 <= idx <= len text_data
    /\ (0 < len text_data -> idx < len text_data).
Proof.
  intros Hr Hlen.
  pose proof (len_nonneg text_data) as Hnn.
  destruct (split_index_bounds r (len text_data) Hr ltac:(lia))
    as (mr & er & x & idx & -> & Hx & Hpos & Hint & HF & Hrange & Hlt).
  destruct (unit_ratio_inv _ Hr) as (mr' & er' & Heq & _ & Her).
  injection Heq as <- <-.
  exists x, idx. split; [exact Hx|]. split.
  { unfold split_idx. rewrite Hx. exact Hint. }
  split.
  { rewrite (int_of_float_floor x Hpos) in Hint. injection Hint as <-.
    reflexivity. }
  rewrite Qfloor_exact_product by lia.
  split; [exact HF|]. split; [exact Hrange|exact Hlt].
Qed.

(** C5.  For every ratio in (0,1) and every corpus (of fewer than [2^53]
    characters, the lengths a double holds exactly), the training text is
    the prefix of length [idx = floor(r * len)], the product being the one
    of the code, in binary64, and the validation text is the rest; [idx] is
    the floor of the exact product or one more.  A corpus of 20,479
    characters with [train_ratio = 0.90] gives 18,431 and 2,048
    characters. *)
Theorem split_data_prefix_suffix (r : float) (text_data : str) :
  unit_ratio r = true -> len text_data < 2 ^ 53 ->
  (exists x idx,
     fmul_int r (len text_data) = Ok x
     /\ idx = Qfloor (Q_of_float x)
     /\ Qfloor (Q_of_float r * inject_Z (len text_data)) <= idx
        <= Qfloor (Q_of_float r * inject_Z (len text_data)) + 1
     /\ split_data r text_data
        = Ok (firstn (Z.to_nat idx) text_data, skipn (Z.to_nat idx) text_data)
     /\ len (firstn (Z.to_nat idx) text_data) = idx
     /\ len (skipn (Z.to_nat idx) text_data) = len text_data - idx)
  /\ (forall corpus : str,
        len corpus = 20479 ->
        exists train_data val_data,
          split_data train_ratio corpus = Ok (train_data, val_data)
          /\ train_data = firstn (Z.to_nat 18431) corpus
          /\ val_data = skipn (Z.to_nat 18431) corpus
          /\ len train_data = 18431 /\ len val_data = 2048).
Proof.
  intros Hr Hlen. split.
  - destruct (split_idx_unit r text_data Hr Hlen)
      as (x & idx & Hx & Hidx & Hfloor & Hexact & Hrange & _).
    exists x, idx.
    split; [exact Hx|]. split; [exact Hfloor|]. split; [exact Hexact|].
    split; [|split].
    + unfold split_data. rewrite Hidx. cbn [bind].
      unfold slice_to, slice_from. rewrite adjust_index_id by exact Hrange.
      reflexivity.
    + unfold len in *. rewrite length_firstn. lia.
    + unfold len in *. rewrite length_skipn. lia.
  - intros corpus Hcorpus.
    exists (firstn (Z.to_nat 18431) corpus), (skipn (Z.to_nat 18431) corpus).
    assert (Hidx : split_idx train_ratio corpus = Ok 18431).
    { unfold split_idx. rewrite Hcorpus. vm_compute. reflexivity. }
    split; [|split; [reflexivity|split; [reflexivity|]]].
    + unfold split_data. rewrite Hidx. cbn [bind].
      unfold slice_to, slice_from. rewrite Hcorpus.
      reflexivity.
    + unfold len in *. rewrite length_firstn, length_skipn. lia.
Qed.

Lemma split_data_prefix_suffix_witness :
  exists x idx,
    fmul_int train_ratio (len (list_ascii_of_string "Every effort moves you"))
    = Ok x
    /\ idx = Qfloor (Q_of_float x)
    /\ Qfloor (Q_of_float train_ratio
               * inject_Z (len (list_ascii_of_string "Every effort moves you")))
       <= idx
       <= Qfloor (Q_of_float train_ratio
                  * inject_Z (len (list_ascii_of_string "Every effort moves you")))
          + 1
    /\ split_data train_ratio (list_ascii_of_string "Every effort moves you")
       = Ok (firstn (Z.to_nat idx) (list_ascii_of_string "Every effort moves you"),
             skipn (Z.to_nat idx) (list_ascii_of_string "Every effort moves you"))
    /\ len (firstn (Z.to_nat idx) (list_ascii_of_string "Every effort moves you"))
       = idx
    /\ len (skipn (Z.to_nat idx) (list_ascii_of_string "Every effort moves you"))
       = len (list_ascii_of_string "Every effort moves you") - idx.
Proof.
  apply (split_data_prefix_suffix train_ratio
           (list_ascii_of_string "Every effort moves you")).
  - reflexivity.
  - vm_compute. reflexivity.
Defined.

(** The floor of the exact product is not always met: [0.7 * 10] is [7.0]
    in binary64, while the double [0.7] times ten is below 7. *)
Lemma split_idx_rounds_up :
  split_idx seven_tenths (list_ascii_of_string "0123456789") = Ok 7
  /\ Qfloor (Q_of_float seven_tenths * inject_Z 10) = 6.
Proof. split; vm_compute; reflexivity. Qed.

(** C6, as stated, fails: with the ratio 0.5 and a corpus of one character
    the split index is 0, and the training part is empty. *)
Lemma split_idx_zero :
  unit_ratio half = true
  /\ split_idx half (list_ascii_of_string "a") = Ok 0
  /\ ~ (0 < 0 < len (list_ascii_of_string "a")).
Proof.
  split; [reflexivity|]. split; [reflexivity|]. lia.
Qed.

(** C6, amended.  For every ratio in (0,1) and every corpus of fewer than
    [2^53] characters the split index satisfies
    [0 <= split_idx <= len(corpus)]; it is below [len(corpus)] when the
    corpus is not empty (the validation part is never empty), and above 0
    when [r * len(corpus) >= 1]. *)
Theorem split_idx_range (r : float) (text_data : str) :
  unit_ratio r = true -> len text_data < 2 ^ 53 ->
  exists idx,
    split_idx r text_data = Ok idx
    /\ 0 <= idx <= len text_data
    /\ (text_data <> [] -> idx < len text_data)
    /\ ((1 <= Q_of_float r * inject_Z (len text_data))%Q -> 0 < idx).
Proof.
  intros Hr Hlen.
  destruct (split_idx_unit r text_data Hr Hlen)
    as (x & idx & _ & Hidx & _ & Hexact & Hrange & Hlt).
  exists idx. split; [exact Hidx|]. split; [exact Hrange|]. split.
  - intros Hne. apply Hlt. destruct text_data; [congruence|].
    unfold len. simpl. lia.
  - intros Hone. apply Qfloor_resp_le in Hone.
    change (Qfloor 1) with 1 in Hone. lia.
Qed.

Lemma split_idx_range_witness :
  exists idx,
    split_idx train_ratio (list_ascii_of_string "Every effort moves you")
    = Ok idx
    /\ 0 <= idx <= len (list_ascii_of_string "Every effort moves you")
    /\ (list_ascii_of_string "Every effort moves you" <> [] ->
        idx < len (list_ascii_of_string "Every effort moves you"))
    /\ ((1 <= Q_of_float train_ratio
              * inject_Z (len (list_ascii_of_string "Every effort moves you")))%Q
        -> 0 < idx).
Proof.
  apply split_idx_range.
  - reflexivity.
  - vm_compute. reflexivity.
Defined.

End Split.

(** * Further properties of the cells *)

(** ** Text to tokens and back, by the shape of the tensor *)

(** [token_ids_to_text] decodes one sequence.  A tensor of one row (shape
    [(1, n)]) and a flat tensor of [n <> 1] tokens are decoded; a flat tensor
    of a single token becomes a scalar under [squeeze(0)], and a batch of two
    rows or more stays nested: the tokenizer gets no flat list, whatever the
    tokenizer is. *)
Theorem token_ids_to_text_by_shape (tok : Encoding) :
  (forall ids,
     token_ids_to_text (unsqueeze0 (tensor_of_list ids)) (Some tok)
     = decode tok ids)
  /\ (forall ids,
        token_ids_to_text (tensor_of_list ids) (Some tok)
        = match ids with
          | [_] => Raise TypeError
          | _ => decode tok ids
          end)
  /\ (forall row1 row2 rows,
        token_ids_to_text
          (Stack (tensor_of_list row1 :: tensor_of_list row2 :: rows))
          (Some tok)
        = Raise TypeError).
Proof.
  split; [|split].
  - intros ids. unfold token_ids_to_text.
    rewrite tolist_tensor_of_list. reflexivity.
  - intros [|a [|b ids]].
    + reflexivity.
    + reflexivity.
    + unfold token_ids_to_text.
      change (squeeze0 (tensor_of_list (a :: b :: ids)))
        with (tensor_of_list (a :: b :: ids)).
      unfold tensor_of_list, tolist_flat. rewrite scalars_of_list.
      reflexivity.
  - intros row1 row2 rows. reflexivity.
Qed.

(** The two adapters compose to [decode] after [encode], for every
    tokenizer and every text, single-token texts included: what either call
    of the tokenizer raises is what the composition raises. *)
Theorem token_ids_to_text_after_text_to_token_ids
    (tok : Encoding) (text : str) :
  (t <- text_to_token_ids text (Some tok) ;; token_ids_to_text t (Some tok))
  = (ids <- encode tok [endoftext] text ;; decode tok ids).
Proof.
  unfold text_to_token_ids.
  destruct (encode tok [endoftext] text) as [ids|e]; [|reflexivity].
  cbn [bind]. unfold token_ids_to_text.
  rewrite tolist_tensor_of_list. reflexivity.
Qed.

(** ** The loss cells, whatever the arithmetic *)

Section AnyArithmetic.

Variable a : arithmetic.

Lemma index_returns_length {A : Type} (row : list A) (i : Z) (x : A) :
  0 <= i -> index row i = Ok x -> i < len row.
Proof.
  intros Hi. unfold index. cbv zeta.
  rewrite !(proj2 (Z.ltb_ge i 0)) by lia.
  destruct (nth_error row (Z.to_nat i)) eqn:Hnth; [|discriminate].
  intros _. assert (Hlt : (Z.to_nat i < List.length row)%nat).
  { apply nth_error_Some. rewrite Hnth. discriminate. }
  unfold len. lia.
Qed.

Lemma target_probas_returns_length {A : Type}
    (probas : list (list (list A))) (targets : list (list Z)) (b : Z)
    (tp : list A) :
  0 <= b -> target_probas probas targets b = Ok tp ->
  b < len probas /\ b < len targets.
Proof.
  intros Hb. unfold target_probas.
  destruct (index targets b) as [ids|e] eqn:Ht; [|discriminate].
  cbn [bind].
  destruct (index probas b) as [rows|e] eqn:Hp; [|discriminate].
  intros _. split; eapply index_returns_length; eassumption.
Qed.

(** The step-by-step cells read the batch rows 0 and 1 and nothing else:
    the rows that follow them, in the logits and in the targets, do not
    change the result. *)
Theorem neg_avg_log_probas_first_rows
    (l0 l1 : list (list (num a))) (logits : list (list (list (num a))))
    (t0 t1 : list Z) (targets : list (list Z)) :
  neg_avg_log_probas a (l0 :: l1 :: logits) (t0 :: t1 :: targets)
  = neg_avg_log_probas a [l0; l1] [t0; t1].
Proof.
  unfold neg_avg_log_probas. cbn [map].
  rewrite !target_probas_at_0, !target_probas_at_1. reflexivity.
Qed.

(** On a batch of fewer than two rows, of logits or of targets, the
    step-by-step cells raise [IndexError]: the batch index 1 is written
    out. *)
Theorem neg_avg_log_probas_one_row
    (logits : list (list (list (num a)))) (targets : list (list Z)) :
  (List.length logits < 2)%nat \/ (List.length targets < 2)%nat ->
  neg_avg_log_probas a logits targets = Raise IndexError.
Proof.
  intros Hshort. unfold neg_avg_log_probas.
  destruct (target_probas _ targets 0) as [tp1|e] eqn:H0.
  - cbn [bind].
    destruct (target_probas _ targets 1) as [tp2|e] eqn:H1.
    + exfalso.
      apply target_probas_returns_length in H1; [|lia].
      unfold len in H1. rewrite length_map in H1. lia.
    + cbn [bind]. f_equal. eapply target_probas_raises. exact H1.
  - cbn [bind]. f_equal. eapply target_probas_raises. exact H0.
Qed.

Hypothesis softmax_length :
  forall row, List.length (softmax a row) = List.length row.

(** The two computations of the loss part ways on negative targets.  On
    the shape [(2, 3, V)] the step-by-step gather counts a target in
    [-V .. -1] from the end of the vocabulary, as it does the target
    [y + V], and returns; [cross_entropy] refuses it with [IndexError]
    ([-100], the ignored index, aside). *)
Theorem negative_targets (V : nat)
    (logits : list (list (list (num a)))) (targets : list (list Z)) :
  shape3 logits 2 3 V -> shape2 targets 2 3 ->
  Forall (Forall (fun y => - Z.of_nat V <= y < 0)) targets ->
  Forall (Forall (fun y => y <> ignore_index)) targets ->
  neg_avg_log_probas a logits targets
  = neg_avg_log_probas a logits (map (map (fun y => y + Z.of_nat V)) targets)
  /\ returns (neg_avg_log_probas a logits targets)
  /\ loss a logits targets = Raise IndexError.
Proof.
  intros [HB Hl] [HB' Ht] Hneg Hign.
  destruct logits as [|l0 [|l1 [|]]]; try discriminate.
  destruct targets as [|t0 [|t1 [|]]]; try discriminate.
  pose proof (Forall_inv Hl) as [H0 Hr0].
  pose proof (Forall_inv (Forall_inv_tail Hl)) as [H1 Hr1].
  pose proof (Forall_inv Ht) as Ht0.
  pose proof (Forall_inv (Forall_inv_tail Ht)) as Ht1.
  pose proof (Forall_inv Hneg) as Hn0.
  pose proof (Forall_inv (Forall_inv_tail Hneg)) as Hn1.
  pose proof (Forall_inv Hign) as Hi0. clear Hl Ht Hneg Hign HB HB'.
  cbv beta in *.
  destruct l0 as [|r00 [|r01 [|r02 [|]]]]; try discriminate.
  destruct l1 as [|r10 [|r11 [|r12 [|]]]]; try discriminate.
  destruct t0 as [|y00 [|y01 [|y02 [|]]]]; try discriminate.
  destruct t1 as [|y10 [|y11 [|y12 [|]]]]; try discriminate.
  repeat match goal with
         | H : Forall _ (_ :: _) |- _ =>
             let Hx := fresh "Hx" in
             pose proof (Forall_inv H) as Hx; cbv beta in Hx;
             apply Forall_inv_tail in H
         | H : Forall _ [] |- _ => clear H
         end.
  assert (Hwrap : forall (row : list (num a)) (y : Z),
             List.length row = V -> - Z.of_nat V <= y < 0 ->
             index (softmax a row) y
             = index (softmax a row) (y + Z.of_nat V)
             /\ returns (index (softmax a row) (y + Z.of_nat V))).
  { intros row y Hrow Hy.
    assert (Hlen : len (softmax a row) = Z.of_nat V)
      by (unfold len; rewrite softmax_length, Hrow; reflexivity).
    split.
    - rewrite index_wrap by lia. rewrite Hlen. reflexivity.
    - destruct (index_in_range (softmax a row) (y + Z.of_nat V))
        as (p & Hp & _); [lia|].
      exists p. exact Hp. }
  assert (Hsame :
    neg_avg_log_probas a [[r00; r01; r02]; [r10; r11; r12]]
      [[y00; y01; y02]; [y10; y11; y12]]
    = neg_avg_log_probas a [[r00; r01; r02]; [r10; r11; r12]]
        (map (map (fun y => y + Z.of_nat V))
           [[y00; y01; y02]; [y10; y11; y12]])).
  { unfold neg_avg_log_probas. cbn [map].
    rewrite !target_probas_at_0, !target_probas_at_1, !gather3.
    rewrite (proj1 (Hwrap r00 y00 ltac:(assumption) ltac:(assumption))).
    rewrite (proj1 (Hwrap r01 y01 ltac:(assumption) ltac:(assumption))).
    rewrite (proj1 (Hwrap r02 y02 ltac:(assumption) ltac:(assumption))).
    rewrite (proj1 (Hwrap r10 y10 ltac:(assumption) ltac:(assumption))).
    rewrite (proj1 (Hwrap r11 y11 ltac:(assumption) ltac:(assumption))).
    rewrite (proj1 (Hwrap r12 y12 ltac:(assumption) ltac:(assumption))).
    reflexivity. }
  split; [exact Hsame|]. split.
  - rewrite Hsame. unfold neg_avg_log_probas. cbn [map].
    rewrite !target_probas_at_0, !target_probas_at_1, !gather3.
    destruct (proj2 (Hwrap r00 y00 ltac:(assumption) ltac:(assumption)))
      as [p00 ->].
    destruct (proj2 (Hwrap r01 y01 ltac:(assumption) ltac:(assumption)))
      as [p01 ->].
    destruct (proj2 (Hwrap r02 y02 ltac:(assumption) ltac:(assumption)))
      as [p02 ->].
    destruct (proj2 (Hwrap r10 y10 ltac:(assumption) ltac:(assumption)))
      as [p10 ->].
    destruct (proj2 (Hwrap r11 y11 ltac:(assumption) ltac:(assumption)))
      as [p11 ->].
    destruct (proj2 (Hwrap r12 y12 ltac:(assumption) ltac:(assumption)))
      as [p12 ->].
    cbn [bind]. eexists. reflexivity.
  - unfold loss, cross_entropy, flatten.
    cbn [List.concat app].
    change (len [r00; r01; r02; r10; r11; r12]
            =? len [y00; y01; y02; y10; y11; y12]) with true.
    cbn [nll_terms].
    rewrite (proj2 (Z.eqb_neq y00 ignore_index)).
    + rewrite (proj2 (Z.leb_gt 0 y00)) by lia. reflexivity.
    + assumption.
Qed.

End AnyArithmetic.

Lemma neg_avg_log_probas_one_row_witness :
  neg_avg_log_probas exact (of_reals [[[1; 2]; [0; 3]; [2; 2]]]%R)
    [[0; 1; 1]]
  = Raise IndexError.
Proof.
  apply neg_avg_log_probas_one_row. left. simpl. lia.
Defined.

Lemma negative_targets_witness :
  neg_avg_log_probas exact
    (of_reals [[[1; 2]; [0; 3]; [2; 2]]; [[0; 0]; [5; 1]; [1; 4]]]%R)
    [[-1; -2; -1]; [-2; -2; -1]]
  = neg_avg_log_probas exact
      (of_reals [[[1; 2]; [0; 3]; [2; 2]]; [[0; 0]; [5; 1]; [1; 4]]]%R)
      (map (map (fun y => y + Z.of_nat 2)) [[-1; -2; -1]; [-2; -2; -1]])
  /\ returns
       (neg_avg_log_probas exact
          (of_reals [[[1; 2]; [0; 3]; [2; 2]]; [[0; 0]; [5; 1]; [1; 4]]]%R)
          [[-1; -2; -1]; [-2; -2; -1]])
  /\ loss exact
       (of_reals [[[1; 2]; [0; 3]; [2; 2]]; [[0; 0]; [5; 1]; [1; 4]]]%R)
       [[-1; -2; -1]; [-2; -2; -1]]
     = Raise IndexError.
Proof.
  apply (negative_targets exact exact_softmax_length 2).
  - split; [reflexivity|]. repeat constructor.
  - split; [reflexivity|]. repeat constructor.
  - repeat constructor; simpl; lia.
  - repeat constructor; discriminate.
Defined.

(** ** When the split index is the floor of the exact product *)

Section ExactIndex.
Local Open Scope Z_scope.

(** Half a unit in the last place of the product is below the last place of
    the length, scaled by the ratio's exponent. *)
Lemma half_unit_bound (M mr mn a d p : Z) :
  0 < mr < 2 ^ 53 -> 53 <= a -> 2 ^ 52 <= mn < 2 ^ 53 ->
  M = mr * mn -> 2 ^ (d - 1) <= M ->
  0 < p <= Z.max (d - 53) (a - 1022) ->
  2 ^ (p - 1) < mn * 2 ^ (a - 53).
Proof.
  intros Hmr Ha Hmn HM Hd Hp.
  pose proof (pow2_pos (a - 53) ltac:(lia)) as Hu.
  destruct (Z.le_gt_cases p (d - 53)) as [Hc|Hc].
  - assert (H1 : 2 ^ (p - 1) <= 2 ^ (d - 54)) by (apply pow2_le; lia).
    assert (H2 : 2 ^ (d - 1) = 2 ^ (d - 54) * 2 ^ 53).
    { rewrite <- pow2_add by lia. f_equal. lia. }
    assert (H3 : 2 ^ a = 2 ^ (a - 53) * 2 ^ 53).
    { rewrite <- pow2_add by lia. f_equal. lia. }
    assert (H0 : mr < 2 ^ a).
    { assert (2 ^ 53 <= 2 ^ a) by (apply pow2_le; lia). lia. }
    assert (H4 : 2 ^ (d - 54) * 2 ^ 53 < mn * 2 ^ (a - 53) * 2 ^ 53).
    { rewrite <- H2. subst M.
      replace (mn * 2 ^ (a - 53) * 2 ^ 53) with (2 ^ a * mn)
        by (rewrite H3; ring).
      assert (mr * mn < 2 ^ a * mn)
        by (apply Z.mul_lt_mono_pos_r; lia).
      lia. }
    assert (H5 : 2 ^ (d - 54) < mn * 2 ^ (a - 53)).
    { apply (Z.mul_lt_mono_pos_r (2 ^ 53)); [lia|exact H4]. }
    lia.
  - assert (H1 : 2 ^ (p - 1) < 2 ^ (a - 53)) by (apply pow2_lt; lia).
    assert (1 * 2 ^ (a - 53) <= mn * 2 ^ (a - 53))
      by (apply Z.mul_le_mono_nonneg_r; lia).
    lia.
Qed.

(** The index is the floor of the exact product when the fractional part of
    that product leaves a margin of [n / 2^53] below the next integer. *)
Lemma split_index_exact (mr : positive) (er n : Z) :
  unit_ratio (S754_finite false mr er) = true -> 0 <= n < 2 ^ 53 ->
  (Zpos mr * n) mod 2 ^ (- er) + n * 2 ^ (- er - 53) < 2 ^ (- er) ->
  (x <- fmul_int (S754_finite false mr er) n ;; int_of_float x)
  = Ok (Zpos mr * n / 2 ^ (- er)).
Proof.
  intros Hr Hn Hmargin.
  destruct (unit_ratio_inv _ Hr) as (mr' & er' & Heq & Hmr & Her).
  injection Heq as <- <-.
  pose proof (pow2_pos (- er) ltac:(lia)) as Hpa.
  destruct (Z.eq_dec n 0) as [->|Hn0].
  - rewrite Z.mul_0_r, Z.div_0_l by lia. reflexivity.
  - destruct (float_of_int_exact n ltac:(lia))
      as (mn & en & Hf & Hen & Hmn & Hmnb).
    unfold fmul_int. rewrite Hf. cbn [bind fmul SFmul xorb].
    destruct (binary_round_aux_exact false (mr * mn) (er + en))
      as (m'' & Hcases & Hm' & ->).
    pose proof (digits2_pos_bounds (mr * mn)) as Hd.
    set (d := Zpos (digits2_pos (mr * mn))) in *.
    rewrite Pos2Z.inj_mul in *.
    set (M := Zpos mr * Zpos mn) in *.
    assert (Hd106 : d <= 106).
    { apply (Zdigits2_le (Zpos (mr * mn)) 106); [lia|].
      rewrite Pos2Z.inj_mul. fold M. split; [unfold M; lia|].
      change (2 ^ 106) with (2 ^ 53 * 2 ^ 53). unfold M.
      apply Z.mul_lt_mono_nonneg; lia. }
    rewrite fexp_eq in *.
    set (e' := Z.max (er + en) (Z.max (d + (er + en) - 53) (-1074))) in *.
    set (p := e' - (er + en)) in *.
    assert (He' : -1074 <= e' <= 0) by (unfold e'; lia).
    assert (Hp : 0 <= p) by (unfold p, e'; lia).
    pose proof (pow2_pos p Hp) as Hpp.
    pose proof (pow2_pos (- e') ltac:(lia)) as Hpq.
    pose proof (pow2_pos (- en) ltac:(lia)) as Hpk.
    assert (Hsplit : 2 ^ p * 2 ^ (- e') = 2 ^ (- er) * 2 ^ (- en)).
    { rewrite <- !pow2_add by lia. f_equal. unfold p. lia. }
    assert (HF : M / 2 ^ p / 2 ^ (- e') = Zpos mr * n / 2 ^ (- er)).
    { rewrite Z.div_div by lia. rewrite Hsplit.
      unfold M. rewrite Hmn, Z.mul_assoc.
      apply Z.div_mul_cancel_r; lia. }
    assert (Hm''b : 0 <= m'' <= 2 ^ 53)
      by (destruct Hcases as [H|[H _]]; lia).
    rewrite int_of_float_rounded by lia. cbn [cond_Zopp]. f_equal.
    set (X := Zpos mr * n) in *.
    set (F := X / 2 ^ (- er)) in *.
    pose proof (Z.div_mod X (2 ^ (- er)) ltac:(lia)) as HX. fold F in HX.
    pose proof (Z.mod_pos_bound X (2 ^ (- er)) Hpa) as HR.
    set (R := X mod 2 ^ (- er)) in *.
    assert (HM : M = X * 2 ^ (- en)).
    { unfold M, X. rewrite Hmn. ring. }
    assert (Hlo : F <= m'' / 2 ^ (- e')).
    { rewrite <- HF. apply Z.div_le_mono; [lia|].
      destruct Hcases as [H|[H _]]; lia. }
    assert (Hup : m'' * 2 ^ p < (F + 1) * 2 ^ (- e') * 2 ^ p).
    { replace ((F + 1) * 2 ^ (- e') * 2 ^ p)
        with ((F + 1) * 2 ^ (- er) * 2 ^ (- en))
        by (rewrite <- !Z.mul_assoc, <- Hsplit; ring).
      pose proof (Z.div_mod M (2 ^ p) ltac:(lia)) as Hdm.
      pose proof (Z.mod_pos_bound M (2 ^ p) ltac:(lia)) as Hmod.
      assert (HMlt : M < (F + 1) * 2 ^ (- er) * 2 ^ (- en)).
      { rewrite HM. apply Z.mul_lt_mono_pos_r; lia. }
      destruct Hcases as [H|(H & Hp0 & Hhalf)]; rewrite H.
      - clear - Hdm Hmod HMlt. lia.
      - pose proof (half_unit_bound M (Zpos mr) (Zpos mn) (- er) d p
                      ltac:(lia) ltac:(lia) Hmnb eq_refl ltac:(lia)
                      ltac:(unfold p, e' in *; lia)) as Hhu.
        assert (H2 : 2 ^ p = 2 * 2 ^ (p - 1)).
        { replace p with (p - 1 + 1) at 1 by lia. apply pow2_succ. lia. }
        replace (e' - (er + en) - 1) with (p - 1) in Hhalf
          by (unfold p; lia).
        fold p in Hhalf.
        assert (Hstep : (M / 2 ^ p + 1) * 2 ^ p <= M + 2 ^ (p - 1))
          by (clear - Hdm Hmod H2 Hhalf; lia).
        assert (Hmarg : M + 2 ^ (p - 1)
                        < (X + n * 2 ^ (- er - 53)) * 2 ^ (- en)).
        { rewrite HM, Z.mul_add_distr_r.
          replace (n * 2 ^ (- er - 53) * 2 ^ (- en))
            with (Zpos mn * 2 ^ (- er - 53)) by (rewrite Hmn; ring).
          lia. }
        assert (Hle : (X + n * 2 ^ (- er - 53)) * 2 ^ (- en)
                      <= (F + 1) * 2 ^ (- er) * 2 ^ (- en)).
        { apply Z.mul_le_mono_nonneg_r; lia. }
        lia. }
    apply Z.mul_lt_mono_pos_r in Hup; [|lia].
    assert (Hhi : m'' / 2 ^ (- e') < F + 1).
    { apply Z.div_lt_upper_bound; [lia|].
      rewrite Z.mul_comm. exact Hup. }
    lia.
Qed.

End ExactIndex.

(** ** Further properties of the split *)

Section SplitProperties.
Local Open Scope Z_scope.

(** The margin of the exact product below the next integer, in integers. *)
Lemma margin_Z (mr : positive) (er n : Z) :
  er <= -53 ->
  (Q_of_float (S754_finite false mr er) * inject_Z n
   + inject_Z n * (1 # 2 ^ 53)
   < inject_Z (Qfloor (Q_of_float (S754_finite false mr er) * inject_Z n)
               + 1))%Q ->
  (Zpos mr * n) mod 2 ^ (- er) + n * 2 ^ (- er - 53) < 2 ^ (- er).
Proof.
  intros Her H.
  rewrite Qfloor_exact_product in H by lia.
  destruct er as [|p|p]; try lia.
  cbn [Q_of_float cond_Zopp] in H. rewrite Qpower_2_neg in H.
  change (- Zneg p) with (Zpos p) in *.
  pose proof (pow2_pos (Zpos p) ltac:(lia)) as Hpa.
  pose proof (Z.div_mod (Zpos mr * n) (2 ^ Zpos p) ltac:(lia)) as HX.
  set (F := Zpos mr * n / 2 ^ Zpos p) in *.
  set (R := (Zpos mr * n) mod 2 ^ Zpos p) in *.
  unfold Qlt, Qplus, Qmult, inject_Z in H. cbn [Qnum Qden] in H.
  rewrite !Pos2Z.inj_mul, !Pos2Z.inj_pow in H.
  change (Zpos 2) with 2 in H. change (Zpos 53) with 53 in H.
  change (Zpos 1) with 1 in H.
  rewrite !Z.mul_1_r, !Z.mul_1_l in H.
  assert (Hs : 2 ^ Zpos p = 2 ^ (Zpos p - 53) * 2 ^ 53).
  { rewrite <- pow2_add by lia. f_equal. lia. }
  pose proof (pow2_pos (Zpos p - 53) ltac:(lia)) as Hq.
  pose proof (pow2_pos 53 ltac:(lia)) as H53.
  set (A := 2 ^ Zpos p) in *. set (B := 2 ^ (Zpos p - 53)) in *.
  set (P := 2 ^ 53) in *. set (X := Zpos mr * n) in *.
  assert (H' : (X + n * B) * P < (F + 1) * A * P).
  { replace ((X + n * B) * P) with (X * P + n * (B * P)) by ring.
    rewrite <- Hs. rewrite Z.mul_assoc in H. exact H. }
  apply Z.mul_lt_mono_pos_r in H'; [|exact H53].
  clear - H' HX. lia.
Qed.

(** For a ratio [r] in (0,1) and a corpus of [n < 2^53] characters,
    the split index is the floor of the exact product [r * n] whenever the
    fractional part of that product is below [1 - n / 2^53]: rounding the
    product to a double then cannot reach the next integer. *)
Theorem split_idx_floor (r : float) (text_data : str) :
  unit_ratio r = true -> len text_data < 2 ^ 53 ->
  (Q_of_float r * inject_Z (len text_data)
   + inject_Z (len text_data) * (1 # 2 ^ 53)
   < inject_Z (Qfloor (Q_of_float r * inject_Z (len text_data)) + 1))%Q ->
  split_idx r text_data
  = Ok (Qfloor (Q_of_float r * inject_Z (len text_data))).
Proof.
  intros Hr Hlen Hmargin.
  pose proof (len_nonneg text_data) as Hnn.
  destruct (unit_ratio_inv _ Hr) as (mr & er & -> & Hmr & Her).
  apply margin_Z in Hmargin; [|lia].
  rewrite Qfloor_exact_product by lia.
  unfold split_idx. apply split_index_exact; [exact Hr|lia|exact Hmargin].
Qed.

Lemma split_idx_floor_witness :
  split_idx train_ratio (list_ascii_of_string "Every effort moves you")
  = Ok (Qfloor (Q_of_float train_ratio
                * inject_Z (len (list_ascii_of_string
                                   "Every effort moves you")))).
Proof.
  apply split_idx_floor.
  - reflexivity.
  - vm_compute. reflexivity.
  - vm_compute. reflexivity.
Defined.

(** With the ratio [0.90] the index is [9 * n / 10] in integers, for every
    length up to [2^49]. *)
Lemma train_ratio_index (n : Z) :
  0 <= n <= 2 ^ 49 ->
  (x <- fmul_int train_ratio n ;; int_of_float x) = Ok (9 * n / 10).
Proof.
  intros Hn. unfold train_ratio.
  assert (Hdiv : 8106479329266893 * n / 2 ^ (- -53) = 9 * n / 10).
  { change (2 ^ (- -53)) with 9007199254740992.
    change (2 ^ 49) with 562949953421312 in Hn.
    pose proof (Z.div_mod (9 * n) 10 ltac:(lia)) as Hd.
    pose proof (Z.mod_pos_bound (9 * n) 10 ltac:(lia)) as Hm.
    symmetry. apply Z.div_unique with
      (r := 8106479329266893 * n - 9007199254740992 * (9 * n / 10)).
    - left. lia.
    - lia. }
  rewrite <- Hdiv. apply split_index_exact.
  - reflexivity.
  - change (2 ^ 49) with 562949953421312 in Hn.
    change (2 ^ 53) with 9007199254740992. lia.
  - change (2 ^ (- -53 - 53)) with 1.
    change (2 ^ (- -53)) with 9007199254740992.
    change (2 ^ 49) with 562949953421312 in Hn.
    rewrite Z.mod_eq by lia.
    change (2 ^ (- -53)) with 9007199254740992 in Hdiv. rewrite Hdiv.
    pose proof (Z.div_mod (9 * n) 10 ltac:(lia)) as Hd.
    pose proof (Z.mod_pos_bound (9 * n) 10 ltac:(lia)) as Hm.
    lia.
Qed.

(** The split of the notebook, with [train_ratio = 0.90]: for every
    corpus of at most [2^49] characters the training part has
    [9 * n / 10] characters (integer division) and the validation part the
    remaining ones; the validation part of a non-empty corpus is not empty,
    and the training part is not empty from two characters on. *)
Theorem split_data_train_ratio (text_data : str) :
  len text_data <= 2 ^ 49 ->
  exists train_data val_data,
    split_data train_ratio text_data = Ok (train_data, val_data)
    /\ len train_data = 9 * len text_data / 10
    /\ len val_data = len text_data - 9 * len text_data / 10
    /\ (0 < len text_data -> 0 < len val_data)
    /\ (2 <= len text_data -> 0 < len train_data).
Proof.
  intros Hlen. pose proof (len_nonneg text_data) as Hnn.
  exists (slice_to text_data (9 * len text_data / 10)),
         (slice_from text_data (9 * len text_data / 10)).
  assert (Hidx : split_idx train_ratio text_data
                 = Ok (9 * len text_data / 10)).
  { unfold split_idx. apply train_ratio_index. lia. }
  assert (Hrange : 0 <= 9 * len text_data / 10 <= len text_data).
  { split; [apply Z.div_pos; lia|].
    apply Z.div_le_upper_bound; lia. }
  split; [unfold split_data; rewrite Hidx; reflexivity|].
  rewrite slice_to_len, slice_from_len by exact Hrange.
  split; [reflexivity|]. split; [reflexivity|]. split.
  - intros Hpos.
    assert (9 * len text_data / 10 < len text_data)
      by (apply Z.div_lt_upper_bound; lia).
    lia.
  - intros H2.
    assert (1 <= 9 * len text_data / 10)
      by (apply Z.div_le_lower_bound; lia).
    lia.
Qed.

Lemma split_data_train_ratio_witness :
  exists train_data val_data,
    split_data train_ratio (list_ascii_of_string "Every effort moves you")
    = Ok (train_data, val_data)
    /\ len train_data
       = 9 * len (list_ascii_of_string "Every effort moves you") / 10
    /\ len val_data
       = len (list_ascii_of_string "Every effort moves you")
         - 9 * len (list_ascii_of_string "Every effort moves you") / 10
    /\ (0 < len (list_ascii_of_string "Every effort moves you")
        -> 0 < len val_data)
    /\ (2 <= len (list_ascii_of_string "Every effort moves you")
        -> 0 < len train_data).
Proof.
  apply split_data_train_ratio. vm_compute. discriminate.
Defined.

(** [float(n)] of a length is zero or a finite float, and is zero only for
    the length 0. *)
Lemma float_of_int_len (n : Z) :
  0 <= n < 2 ^ 53 ->
  exists f,
    float_of_int n = Ok f
    /\ match f with
       | S754_zero _ => n = 0
       | S754_finite _ _ _ => 0 < n
       | _ => False
       end.
Proof.
  intros Hn. destruct (Z.eq_dec n 0) as [->|Hn0].
  - exists (S754_zero false). split; reflexivity.
  - destruct (float_of_int_exact n ltac:(lia)) as (mn & en & Hf & _).
    exists (S754_finite false mn en). split; [exact Hf|lia].
Qed.

(** A ratio of zero, of either sign, sends the whole corpus to the
    validation part. *)
Theorem split_data_zero_ratio (s : bool) (text_data : str) :
  len text_data <= PY_SSIZE_T_MAX ->
  split_data (S754_zero s) text_data = Ok ([], text_data).
Proof.
  intros Hlen.
  destruct (float_of_int_small (len text_data)) as (f & Hf & Hs).
  { pose proof (len_nonneg text_data). unfold PY_SSIZE_T_MAX in Hlen. lia. }
  unfold split_data, split_idx, fmul_int. rewrite Hf. cbn [bind].
  assert (H0 : (slice_to text_data 0, slice_from text_data 0)
               = ([], text_data)).
  { unfold slice_to, slice_from.
    rewrite adjust_index_id by (pose proof (len_nonneg text_data); lia).
    reflexivity. }
  destruct f as [s'|s'| |s' m e]; try contradiction;
    cbn [fmul SFmul int_of_float bind]; rewrite H0; reflexivity.
Qed.

Lemma split_data_zero_ratio_witness :
  split_data (S754_zero true) (list_ascii_of_string "Every effort moves you")
  = Ok ([], list_ascii_of_string "Every effort moves you").
Proof.
  apply split_data_zero_ratio. vm_compute. discriminate.
Defined.

(** A ratio that is not a number makes the split raise [ValueError];
    an infinite ratio makes it raise [OverflowError] on a corpus that is not
    empty, and [ValueError] on the empty corpus, where the product is NaN. *)
Theorem split_data_not_finite (text_data : str) :
  len text_data < 2 ^ 53 ->
  split_data S754_nan text_data = Raise ValueError
  /\ forall s,
       split_data (S754_infinity s) text_data
       = Raise (match text_data with
                | [] => ValueError
                | _ :: _ => OverflowError
                end).
Proof.
  intros Hlen. pose proof (len_nonneg text_data) as Hnn.
  destruct (float_of_int_len (len text_data) ltac:(lia)) as (f & Hf & Hcase).
  unfold split_data, split_idx, fmul_int. rewrite Hf. cbn [bind].
  split.
  - destruct f; reflexivity.
  - intros s. destruct f as [s'|s'| |s' m e]; try contradiction.
    + destruct text_data; [reflexivity|]. unfold len in Hcase. simpl in Hcase.
      lia.
    + destruct text_data; [|reflexivity]. unfold len in Hcase.
      simpl in Hcase. lia.
Qed.

Lemma split_data_not_finite_witness :
  split_data S754_nan (list_ascii_of_string "Every effort moves you")
  = Raise ValueError
  /\ forall s,
       split_data (S754_infinity s)
         (list_ascii_of_string "Every effort moves you")
       = Raise OverflowError.
Proof.
  apply (split_data_not_finite (list_ascii_of_string "Every effort moves you")).
  vm_compute. reflexivity.
Defined.

End SplitProperties.

(** ** Ratios outside (0,1) *)

Section OutsideUnit.
Local Open Scope Z_scope.

(** The sign of a rounded product is the sign it is given. *)
Lemma binary_round_aux_negb (s : bool) (m e : Z) (l : location) :
  binary_round_aux prec emax (negb s) m e l
  = SFopp (binary_round_aux prec emax s m e l).
Proof.
  unfold binary_round_aux.
  destruct (shr_fexp prec emax m e l) as [mrs' e'].
  destruct (shr_fexp prec emax _ e' loc_Exact) as [mrs'' e''].
  destruct (shr_m mrs'') as [|q|q]; try reflexivity.
  destruct (e'' <=? emax - prec); reflexivity.
Qed.

Lemma fmul_opp (x y : float) : fmul (SFopp x) y = SFopp (fmul x y).
Proof.
  unfold fmul.
  destruct x as [sx|sx| |sx mx ex], y as [sy|sy| |sy my ey];
    cbn [SFmul SFopp]; try reflexivity;
    try (destruct sx, sy; reflexivity).
  rewrite <- binary_round_aux_negb. destruct sx, sy; reflexivity.
Qed.

Lemma int_of_float_opp (x : float) :
  int_of_float (SFopp x) = (i <- int_of_float x ;; Ok (- i)).
Proof.
  destruct x as [s|s| |s m e]; try reflexivity.
  cbn [SFopp int_of_float bind]. f_equal.
  destruct s; cbn [negb cond_Zopp]; lia.
Qed.

Lemma split_index_opp (r : float) (n : Z) :
  (x <- fmul_int (SFopp r) n ;; int_of_float x)
  = (idx <- (x <- fmul_int r n ;; int_of_float x) ;; Ok (- idx)).
Proof.
  unfold fmul_int.
  destruct (float_of_int n) as [f|e]; [|reflexivity].
  cbn [bind]. rewrite fmul_opp. apply int_of_float_opp.
Qed.

(** Negating the ratio negates the split index, and changes nothing
    to what is raised: this holds for every ratio and every corpus. *)
Theorem split_idx_opp (r : float) (text_data : str) :
  split_idx (SFopp r) text_data
  = (idx <- split_idx r text_data ;; Ok (- idx)).
Proof. unfold split_idx. apply split_index_opp. Qed.

(** A ratio in (-1,0) splits from the end: with [idx] the index of
    the opposite ratio, the training part is the corpus without its last
    [idx] characters and the validation part those last characters; with
    [idx = 0] the training part is empty. *)
Theorem split_data_negative_ratio (r : float) (text_data : str) :
  unit_ratio r = true -> len text_data < 2 ^ 53 ->
  exists idx,
    split_idx r text_data = Ok idx
    /\ 0 <= idx <= len text_data
    /\ split_data (SFopp r) text_data
       = Ok (if idx =? 0 then ([], text_data)
             else (slice_to text_data (len text_data - idx),
                   slice_from text_data (len text_data - idx))).
Proof.
  intros Hr Hlen. pose proof (len_nonneg text_data) as Hnn.
  destruct (split_idx_unit r text_data Hr Hlen)
    as (x & idx & _ & Hidx & _ & _ & Hrange & _).
  exists idx. split; [exact Hidx|]. split; [exact Hrange|].
  unfold split_data, split_idx in *. rewrite split_index_opp, Hidx.
  cbn [bind]. f_equal. unfold slice_to, slice_from.
  destruct (Z.eqb_spec idx 0) as [->|Hne].
  - change (- 0) with 0. rewrite adjust_index_id by lia. reflexivity.
  - rewrite (adjust_index_id (len text_data - idx)) by lia.
    unfold adjust_index at 1 2.
    destruct (Z.ltb_spec (- idx) 0); [|lia].
    replace (Z.max (- idx + len text_data) 0) with (len text_data - idx)
      by lia.
    reflexivity.
Qed.

Lemma split_data_negative_ratio_witness :
  exists idx,
    split_idx train_ratio (list_ascii_of_string "Every effort moves you")
    = Ok idx
    /\ 0 <= idx <= len (list_ascii_of_string "Every effort moves you")
    /\ split_data (SFopp train_ratio)
         (list_ascii_of_string "Every effort moves you")
       = Ok (if idx =? 0
             then ([], list_ascii_of_string "Every effort moves you")
             else (slice_to (list_ascii_of_string "Every effort moves you")
                     (len (list_ascii_of_string "Every effort moves you")
                      - idx),
                   slice_from (list_ascii_of_string "Every effort moves you")
                     (len (list_ascii_of_string "Every effort moves you")
                      - idx))).
Proof.
  apply split_data_negative_ratio.
  - reflexivity.
  - vm_compute. reflexivity.
Defined.

(** A finite ratio of at least 1 and below [2^900]. *)
Lemma ratio_ge_one_inv (r : float) :
  moderate r = true -> flt zero r = true -> flt r one = false ->
  exists mr er,
    r = S754_finite false mr er
    /\ 2 ^ 52 <= Zpos mr < 2 ^ 53 /\ -52 <= er <= 848.
Proof.
  intros Hmod H0 H1.
  pose proof (moderate_small r Hmod) as Hs.
  unfold moderate in Hmod. apply andb_prop in Hmod. destruct Hmod as [Hv _].
  destruct r as [s|s| |s m e]; try contradiction.
  - destruct s; discriminate.
  - destruct s; [discriminate|].
    exists m, e. split; [reflexivity|].
    destruct (is_float_mantissa false m e Hv) as (Hm & He & Hc).
    destruct Hs as [_ He848].
    assert (Hge : -52 <= e).
    { destruct (Z.le_gt_cases (-52) e) as [Hle|Hgt]; [exact Hle|].
      exfalso. unfold flt, SFltb, one, SFcompare in H1.
      rewrite (proj2 (Z.compare_lt_iff e (-52))) in H1 by lia.
      discriminate. }
    rewrite fexp_eq in Hc.
    assert (Hd53 : Zpos (digits2_pos m) = 53) by (clear - Hc Hge; lia).
    pose proof (digits2_pos_bounds m) as [Hlo _].
    rewrite Hd53 in Hlo. change (53 - 1) with 52 in Hlo.
    split; [split; [exact Hlo|exact Hm]|lia].
Qed.

Lemma shiftl_le_mono (a b e : Z) :
  0 <= a <= b -> Z.shiftl a e <= Z.shiftl b e.
Proof.
  intros Hab. destruct (Z.le_gt_cases 0 e) as [He|He].
  - rewrite !Z.shiftl_mul_pow2 by lia.
    apply Z.mul_le_mono_nonneg_r; [|lia].
    pose proof (pow2_pos e He). lia.
  - rewrite !Z.shiftl_div_pow2 by lia.
    apply Z.div_le_mono; [|lia].
    apply pow2_pos. lia.
Qed.

(** [int] of a rounded mantissa, at any exponent that does not overflow. *)
Lemma int_of_float_shift (s : bool) (m e : Z) :
  0 <= m <= 2 ^ 53 -> e <= 970 ->
  int_of_float (if m <? 2 ^ 53 then float_of_mantissa s m e
                else float_of_mantissa s (2 ^ 52) (e + 1))
  = Ok (cond_Zopp s (Z.shiftl m e)).
Proof.
  intros Hm He.
  destruct (Z.ltb_spec m (2 ^ 53)) as [Hlt|Hge].
  - unfold float_of_mantissa. destruct m as [|q|q]; [| |lia].
    + rewrite Z.shiftl_0_l. destruct s; reflexivity.
    + change (emax - prec) with 971.
      destruct (Z.leb_spec e 971); [|lia]. reflexivity.
  - assert (m = 2 ^ 53) by lia. subst m.
    change (float_of_mantissa s (2 ^ 52) (e + 1))
      with (if e + 1 <=? 971 then S754_finite s 4503599627370496 (e + 1)
            else S754_infinity s).
    destruct (Z.leb_spec (e + 1) 971); [|lia].
    cbn [int_of_float]. f_equal. f_equal.
    change (Zpos 4503599627370496) with (2 ^ 52).
    replace (e + 1) with (1 + e) by lia.
    rewrite <- Z.shiftl_shiftl by lia. reflexivity.
Qed.

(** With a ratio of at least 1 the index is at least the length. *)
Lemma split_index_whole (mr : positive) (er n : Z) :
  2 ^ 52 <= Zpos mr < 2 ^ 53 -> -52 <= er <= 848 -> 0 <= n < 2 ^ 53 ->
  exists idx,
    (x <- fmul_int (S754_finite false mr er) n ;; int_of_float x) = Ok idx
    /\ n <= idx.
Proof.
  intros Hmr Her Hn.
  destruct (Z.eq_dec n 0) as [->|Hn0].
  - exists 0. split; [reflexivity|lia].
  - destruct (float_of_int_exact n ltac:(lia))
      as (mn & en & Hf & Hen & Hmn & Hmnb).
    unfold fmul_int. rewrite Hf. cbn [bind fmul SFmul xorb].
    destruct (binary_round_aux_exact false (mr * mn) (er + en))
      as (m'' & Hcases & Hm' & ->).
    pose proof (digits2_pos_bounds (mr * mn)) as Hd.
    set (d := Zpos (digits2_pos (mr * mn))) in *.
    rewrite Pos2Z.inj_mul in *.
    set (M := Zpos mr * Zpos mn) in *.
    assert (HM104 : 2 ^ 104 <= M).
    { change (2 ^ 104) with (2 ^ 52 * 2 ^ 52). unfold M.
      apply Z.mul_le_mono_nonneg; lia. }
    assert (HM106 : M < 2 ^ 106).
    { change (2 ^ 106) with (2 ^ 53 * 2 ^ 53). unfold M.
      apply Z.mul_lt_mono_nonneg; lia. }
    assert (Hd105 : 105 <= d).
    { assert (2 ^ 104 < 2 ^ d) by lia.
      apply pow2_lt_inv in H; [lia|]. unfold d. lia. }
    assert (Hd106 : d <= 106).
    { assert (2 ^ (d - 1) < 2 ^ 106) by lia.
      apply pow2_lt_inv in H; lia. }
    rewrite fexp_eq in *.
    set (e' := Z.max (er + en) (Z.max (d + (er + en) - 53) (-1074))) in *.
    assert (He' : e' = d + (er + en) - 53) by (unfold e'; lia).
    set (p := e' - (er + en)) in *.
    assert (Hp : p = d - 53) by (unfold p; lia).
    pose proof (pow2_pos p ltac:(lia)) as Hpp.
    assert (Hm''b : 0 <= m'' <= 2 ^ 53)
      by (destruct Hcases as [H|[H _]]; lia).
    assert (Hm''lo : M / 2 ^ p <= m'')
      by (destruct Hcases as [H|[H _]]; lia).
    rewrite int_of_float_shift by lia. cbn [cond_Zopp].
    eexists. split; [reflexivity|].
    destruct (Z.le_gt_cases 1 e') as [Hpos|Hneg].
    + assert (H52 : 2 ^ 52 <= M / 2 ^ p).
      { apply Z.div_le_lower_bound; [lia|].
        assert (2 ^ p * 2 ^ 52 = 2 ^ (d - 1)).
        { rewrite <- pow2_add by lia. f_equal. lia. }
        lia. }
      rewrite Z.shiftl_mul_pow2 by lia.
      assert (2 ^ 1 <= 2 ^ e') by (apply pow2_le; lia).
      change (2 ^ 1) with 2 in H.
      assert (2 ^ 52 * 2 <= m'' * 2 ^ e')
        by (apply Z.mul_le_mono_nonneg; lia).
      change (2 ^ 53) with (2 ^ 52 * 2) in Hn. lia.
    + rewrite Z.shiftl_div_pow2 by lia.
      pose proof (pow2_pos (- e') ltac:(lia)) as Hpq.
      pose proof (pow2_pos (- en) ltac:(lia)) as Hpk.
      transitivity (M / 2 ^ p / 2 ^ (- e')).
      * rewrite Z.div_div by lia.
        assert (Hpe : 2 ^ p * 2 ^ (- e') = 2 ^ (- er - en)).
        { rewrite <- pow2_add by lia. f_equal. unfold p. lia. }
        rewrite Hpe.
        pose proof (pow2_pos (- er - en) ltac:(lia)) as Hpa.
        apply Z.div_le_lower_bound; [lia|].
        assert (Hle : 2 ^ (- er - en) <= 2 ^ (52 - en))
          by (apply pow2_le; lia).
        assert (Hs : 2 ^ (52 - en) = 2 ^ 52 * 2 ^ (- en)).
        { rewrite <- pow2_add by lia. reflexivity. }
        assert (Hmr' : 2 ^ 52 * 2 ^ (- en) <= Zpos mr * 2 ^ (- en))
          by (apply Z.mul_le_mono_nonneg_r; lia).
        assert (Hn' : 2 ^ (- er - en) * n <= Zpos mr * 2 ^ (- en) * n)
          by (apply Z.mul_le_mono_nonneg_r; lia).
        unfold M. rewrite Hmn.
        replace (Zpos mr * (n * 2 ^ (- en)))
          with (Zpos mr * 2 ^ (- en) * n) by ring.
        exact Hn'.
      * apply Z.div_le_mono; lia.
Qed.

(** A finite ratio of at least 1 (and below [2^900]) sends the whole
    corpus to the training part and leaves the validation part empty. *)
Theorem split_data_whole (r : float) (text_data : str) :
  moderate r = true -> flt zero r = true -> flt r one = false ->
  len text_data < 2 ^ 53 ->
  split_data r text_data = Ok (text_data, []).
Proof.
  intros Hmod H0 H1 Hlen. pose proof (len_nonneg text_data) as Hnn.
  destruct (ratio_ge_one_inv r Hmod H0 H1) as (mr & er & -> & Hmr & Her).
  destruct (split_index_whole mr er (len text_data) Hmr Her ltac:(lia))
    as (idx & Hidx & Hge).
  unfold split_data, split_idx. rewrite Hidx. cbn [bind]. f_equal.
  unfold slice_to, slice_from, adjust_index.
  destruct (Z.ltb_spec idx 0); [lia|].
  rewrite Z.min_r by lia. unfold len. rewrite Nat2Z.id.
  rewrite firstn_all, skipn_all. reflexivity.
Qed.

Lemma split_data_whole_witness :
  split_data three_halves (list_ascii_of_string "Every effort moves you")
  = Ok (list_ascii_of_string "Every effort moves you", []).
Proof.
  apply split_data_whole.
  - reflexivity.
  - reflexivity.
  - reflexivity.
  - vm_compute. reflexivity.
Defined.

End OutsideUnit.
